(** * The page-check engine of the automation tester (src/project.py)

    A shallow embedding of the checks of [project.py]: the text predicate
    [is_safe_text], the decorator [retry_on_stale], [PageResult], and the
    methods of [SiteTester] ([normalise], [same_domain], [discover_links],
    [http_status_check], [grab_console_errors], [fill_and_submit_forms],
    [check_internal_links], [safe_click_buttons]).

    Modelling choices.
    - A Python [str] is a [string]; a character is read as a code point
      below 256.  Text with larger code points is outside the model, but
      for the levels of the console log, which are of a type of their own
      with its [upper], since [upper] takes letters above 255 to letters
      below.
    - The browser driver, the HTTP client and [time.sleep] are effects.  A
      computation threads a state made of the [PageResult] being filled (a
      mutable object: what a body appended stays appended when the body
      raises) and the log of the calls made so far, each with its outcome.
      The collaborators answer as a function of that log, so that an element
      can be stale at one moment and fine at the next.
    - An exception is a value of [exn]; a computation returns [inl e] when
      it raises [e].
    - The library functions the source calls on strings ([urlparse],
      [urljoin], the HTML parser, [repr]) are fields of the record of
      collaborators.  [urlparse], [urljoin] and the HTML parser may raise:
      [same_domain] handles what [urlparse] raises, and nothing handles
      what the other two raise in [discover_links]. *)

From Stdlib Require Import Ascii.
From stdpp Require Import base strings list gmap pretty.

Local Open Scope Z_scope.
Local Open Scope nat_scope.

(** ** Python strings *)

Module Str.

(** [s.startswith(p)] *)
Fixpoint startswith (s p : string) {struct p} : bool :=
  match p, s with
  | EmptyString, _ => true
  | String _ _, EmptyString => false
  | String c p', String d s' =>
      if bool_decide (c = d) then startswith s' p' else false
  end.

(** [c.lower()] for a code point below 256: the letters A-Z, and the
    capital letters of the range 192-222 (215, the multiplication sign,
    is not a letter). *)
Definition lower_char (c : ascii) : ascii :=
  let n := nat_of_ascii c in
  if ((65 <=? n) && (n <=? 90))
     || ((192 <=? n) && (n <=? 222) && negb (n =? 215))
  then ascii_of_nat (n + 32)
  else c.

(** [s.lower()] *)
Fixpoint lower (s : string) : string :=
  match s with
  | EmptyString => EmptyString
  | String c s' => String (lower_char c) (lower s')
  end.

(** [c.isspace()] for a code point below 256. *)
Definition isspace (c : ascii) : bool :=
  let n := nat_of_ascii c in
  ((9 <=? n) && (n <=? 13)) || ((28 <=? n) && (n <=? 32))
  || (n =? 133) || (n =? 160).

(** [s.lstrip()] *)
Fixpoint lstrip (s : string) : string :=
  match s with
  | EmptyString => EmptyString
  | String c s' => if isspace c then lstrip s' else s
  end.

(** [s.rstrip()] *)
Fixpoint rstrip (s : string) : string :=
  match s with
  | EmptyString => EmptyString
  | String c s' =>
      match rstrip s' with
      | EmptyString => if isspace c then EmptyString else String c EmptyString
      | r => String c r
      end
  end.

(** [s.strip()] *)
Definition strip (s : string) : string := rstrip (lstrip s).

(** [s.split(sep)[0]] for a one-character separator: the part of [s]
    before the first occurrence of [sep], all of [s] when there is none. *)
Fixpoint split_head (sep : ascii) (s : string) : string :=
  match s with
  | EmptyString => EmptyString
  | String c s' =>
      if bool_decide (c = sep) then EmptyString
      else String c (split_head sep s')
  end.

(** [c in s] for a character [c]. *)
Fixpoint has_char (c : ascii) (s : string) : bool :=
  match s with
  | EmptyString => false
  | String d s' => bool_decide (c = d) || has_char c s'
  end.

(** [re.search(pattern, text)] reduced to a truth value, for a pattern made
    of letters only (as every entry of the blacklist is): the pattern
    occurs in the text. *)
Fixpoint re_search (pattern text : string) : bool :=
  startswith text pattern
  || match text with
     | EmptyString => false
     | String _ text' => re_search pattern text'
     end.

(** The double quote, which the messages of the source contain. *)
Definition dquote : string := String (ascii_of_nat 34) EmptyString.

End Str.

(** ** Config *)

Definition SAFE_CLICK_BLACKLIST : list string :=
  ["delete"; "remove"; "logout"; "signout"; "pay"; "purchase"; "buy"].

(** ** [is_safe_text] *)

(** The [for] loop of [is_safe_text]: [False] at the first pattern found. *)
Fixpoint is_safe_text_loop (patterns : list string) (text : string) : bool :=
  match patterns with
  | [] => true
  | pattern :: rest =>
      if Str.re_search pattern text then false
      else is_safe_text_loop rest text
  end.

Definition is_safe_text (text : string) : bool :=
  if bool_decide (text = EmptyString) then true
  else is_safe_text_loop SAFE_CLICK_BLACKLIST (Str.lower text).

(** What the blacklist is meant to catch, stated without [lower] on the
    text: the pattern occurs in the text when the case of letters is
    ignored. *)
Definition ci_occurs (pattern text : string) : Prop :=
  ∃ pre mid post,
    text = pre +:+ mid +:+ post ∧ Str.lower mid = Str.lower pattern.

Definition blacklisted (text : string) : Prop :=
  ∃ pattern, pattern ∈ SAFE_CLICK_BLACKLIST ∧ ci_occurs pattern text.

(** ** Exceptions, the log of calls, and the state of a computation *)

(** The exceptions the checks tell apart.  All three derive from
    [Exception]; [OtherException] stands for every other class.  The string
    is [str(e)]. *)
Inductive exn : Type :=
| StaleElementReferenceException (msg : string)
| RuntimeError (msg : string)
| OtherException (msg : string).

Definition str_exn (e : exn) : string :=
  match e with
  | StaleElementReferenceException m => m
  | RuntimeError m => m
  | OtherException m => m
  end.

(** A handle on a page element. *)
Definition Element := nat.

(** One call to a collaborator, with what it answered. *)
Inductive Event : Type :=
| EvFind (tag : string) (r : exn + list Element)
| EvText (b : Element) (r : exn + string)
| EvAttr (b : Element) (attr : string) (r : exn + option string)
| EvClick (b : Element) (r : option exn)
| EvBack (r : option exn)
| EvSleep (secs : nat)
| EvHead (link : string) (timeout : nat) (r : exn + Z).

(** An entry of [PageResult.tests]. *)
Record Test : Type := mkTest {
  name : string;
  passed : bool;
  message : string
}.

Record PageResult : Type := mkPageResult {
  url : string;
  tests : list Test;
  screenshot : option string
}.

(** [PageResult(url)] *)
Definition PageResult_init (u : string) : PageResult :=
  {| url := u; tests := []; screenshot := None |}.

(** [PageResult.add] *)
Definition PageResult_add (pr : PageResult) (n : string) (p : bool)
    (m : string) : PageResult :=
  {| url := url pr;
     tests := tests pr ++ [mkTest n p m];
     screenshot := screenshot pr |}.

Definition passed_count (pr : PageResult) : nat :=
  length (filter (λ t, passed t = true) (tests pr)).

Definition failed_count (pr : PageResult) : nat :=
  length (filter (λ t, passed t = false) (tests pr)).

Record St : Type := mkSt {
  st_page : PageResult;
  st_log : list Event
}.

(** The collaborators.  The driver and the HTTP client answer from the log
    of what has happened so far. *)
Record Env : Type := mkEnv {
  (** [driver.find_elements(By.TAG_NAME, tag)] *)
  env_find_elements : list Event → string → exn + list Element;
  (** [b.text] *)
  env_text : list Event → Element → exn + string;
  (** [b.get_attribute(attr)] *)
  env_get_attribute : list Event → Element → string → exn + option string;
  (** [b.click()]; [None] when it returns *)
  env_click : list Event → Element → option exn;
  (** [driver.back()] *)
  env_back : list Event → option exn;
  (** [requests.head(link, allow_redirects=True, timeout=t).status_code] *)
  env_head : list Event → string → nat → exn + Z;
  (** [urlparse(u)], reduced to its [scheme] and [netloc] *)
  env_urlparse : string → exn + (string * string);
  (** [urljoin(base, href)] *)
  env_urljoin : string → string → exn + string;
  (** [a['href']] for [a] in
      [BeautifulSoup(page_source, 'html.parser').find_all('a', href=True)] *)
  env_anchor_hrefs : string → exn + list string;
  (** [repr] of a list of [(link, status_code)] and [(link, str(e))] *)
  env_repr : list (string * (Z + string)) → string;
  (** the order in which [for link in links] visits a set *)
  env_iter : gset string → list string;
  (** [datetime.utcnow()] when the session is set up *)
  env_utcnow : Z;
  (** acquiring the browser ([ChromeDriverManager().install()],
      [webdriver.Chrome(...)], [set_page_load_timeout]); [None] when it
      returns *)
  env_chrome : option exn
}.

(** Iterating over a set visits each of its members once. *)
Definition iter_ok (env : Env) : Prop :=
  ∀ links : gset string, env_iter env links ≡ₚ elements links.

(** ** The monad of the checks *)

Definition M (A : Type) : Type := St → (exn + A) * St.

Definition ret {A} (a : A) : M A := λ s, (inr a, s).

Definition raise {A} (e : exn) : M A := λ s, (inl e, s).

Definition bind {A B} (c : M A) (k : A → M B) : M B :=
  λ s, match c s with
       | (inr a, s') => k a s'
       | (inl e, s') => (inl e, s')
       end.

Notation "x <- c ;; k" := (bind c (λ x, k))
  (at level 100, c at next level, right associativity).
Notation "c ;; k" := (bind c (λ _, k))
  (at level 100, right associativity).

(** [try: c  except Exception as e: h e] *)
Definition try_except {A} (c : M A) (h : exn → M A) : M A :=
  λ s, match c s with
       | (inr a, s') => (inr a, s')
       | (inl e, s') => h e s'
       end.

Definition emit (ev : Event) : M unit :=
  λ s, (inr tt, {| st_page := st_page s; st_log := st_log s ++ [ev] |}).

(** A call that returns a value or raises. *)
Definition call {A} (answer : list Event → exn + A)
    (ev : exn + A → Event) : M A :=
  λ s, let r := answer (st_log s) in
       (r, {| st_page := st_page s; st_log := st_log s ++ [ev r] |}).

(** A call that returns nothing or raises. *)
Definition call_unit (answer : list Event → option exn)
    (ev : option exn → Event) : M unit :=
  λ s, let r := answer (st_log s) in
       (match r with None => inr tt | Some e => inl e end,
        {| st_page := st_page s; st_log := st_log s ++ [ev r] |}).

(** A computation without effect, which returns or raises. *)
Definition of_result {A} (r : exn + A) : M A := λ s, (r, s).

(** [time.sleep(secs)] *)
Definition sleep (secs : nat) : M unit := emit (EvSleep secs).

(** [page_result.add(n, p, m)] *)
Definition add (n : string) (p : bool) (m : string) : M unit :=
  λ s, (inr tt, {| st_page := PageResult_add (st_page s) n p m;
                   st_log := st_log s |}).

(** ** [retry_on_stale] *)

Section Retry.
(** The exception the calling frame is handling, if any: a bare [raise]
    re-raises it, and raises [RuntimeError] when there is none. *)
Variable handled : option exn.

Definition bare_raise {A} : M A :=
  match handled with
  | Some e => raise e
  | None => raise (RuntimeError "No active exception to reraise")
  end.

(** [for _ in range(n)] of [wrapper], followed by the bare [raise]. *)
Fixpoint retry_loop {A} (n : nat) (func : M A) : M A :=
  match n with
  | 0 => bare_raise
  | S n' =>
      λ s, match func s with
           | (inr a, s') => (inr a, s')
           | (inl (StaleElementReferenceException _), s') =>
               (sleep 1 ;; retry_loop n' func) s'
           | (inl e, s') => (inl e, s')
           end
  end.

Definition retry_on_stale {A} (func : M A) : M A := retry_loop 3 func.
End Retry.

(** ** [SiteTester] *)

Record SiteTester : Type := mkSiteTester {
  base_url : string;
  scheme : string;
  domain : string;
  visited : gset string;
  to_visit : list string;
  results : gmap string PageResult;
  start_time : Z
}.

(** [SiteTester.normalise] *)
Definition normalise (u : string) : string :=
  if Str.startswith u "http" then u else "http://" +:+ u.

Section Checks.
Variable env : Env.
Variable handled : option exn.

(** [SiteTester.__init__]: the fields, then the browser. *)
Definition SiteTester_init (raw : string) : exn + SiteTester :=
  let base := normalise raw in
  match env_urlparse env base with
  | inl e => inl e
  | inr (sch, netloc) =>
      let self := {| base_url := base; scheme := sch; domain := netloc;
                     visited := ∅; to_visit := [base]; results := ∅;
                     start_time := env_utcnow env |} in
      match env_chrome env with
      | Some e => inl e
      | None => inr self
      end
  end.

Variable self : SiteTester.

(** [SiteTester.same_domain] *)
Definition same_domain (u : string) : bool :=
  match env_urlparse env u with
  | inr (_, netloc) =>
      bool_decide (netloc = EmptyString) || bool_decide (netloc = domain self)
  | inl _ => false
  end.

(** One turn of the [for] loop of [discover_links], on the anchor whose
    [href] attribute is [href0]: the set after the turn, or the exception
    of [urljoin]. *)
Definition discover_links_step (base : string) (links : gset string)
    (href0 : string) : exn + gset string :=
  let href := Str.strip href0 in
  if Str.startswith href "mailto:" || Str.startswith href "tel:"
  then inr links
  else
    match env_urljoin env base href with
    | inl e => inl e
    | inr absolute =>
        if Str.startswith absolute "javascript:" then inr links
        else
          let absolute := Str.split_head "#" absolute in
          if same_domain absolute then inr (links ∪ {[absolute]})
          else inr links
    end.

(** The [for] loop of [discover_links]. *)
Fixpoint discover_links_loop (base : string) (links : gset string)
    (hrefs : list string) : exn + gset string :=
  match hrefs with
  | [] => inr links
  | href0 :: rest =>
      match discover_links_step base links href0 with
      | inl e => inl e
      | inr links' => discover_links_loop base links' rest
      end
  end.

(** [SiteTester.discover_links] *)
Definition discover_links (page_source base : string) : exn + gset string :=
  match env_anchor_hrefs env page_source with
  | inl e => inl e
  | inr hrefs => discover_links_loop base ∅ hrefs
  end.

(** [SiteTester.http_status_check] *)
Definition http_status_check (u : string) : M (option Z * string) :=
  try_except
    (code <- call (λ h, env_head env h u 10) (EvHead u 10) ;;
     ret (Some code, EmptyString))
    (λ e, ret (None, str_exn e)).

(** [driver.find_elements(By.TAG_NAME, tag)] inside its [try], with [[]]
    for any exception. *)
Definition find_elements_or_empty (tag : string) : M (list Element) :=
  try_except (call (λ h, env_find_elements env h tag) (EvFind tag))
             (λ _, ret []).

(** The body of [fill_and_submit_forms]. *)
Definition fill_and_submit_forms_body : M unit :=
  forms <- find_elements_or_empty "form" ;;
  match forms with
  | [] => add "forms_detected" true "No forms on page"
  | _ => add "forms_detected" true (pretty (length forms) +:+ " form(s)")
  end.

Definition fill_and_submit_forms : M unit :=
  retry_on_stale handled fill_and_submit_forms_body.

(** A link probed by [check_internal_links]: [requests.head] inside its
    [try]; the entry appended to [broken], if any. *)
Definition probe_link (link : string) : M (list (string * (Z + string))) :=
  try_except
    (code <- call (λ h, env_head env h link 8) (EvHead link 8) ;;
     if (400 <=? code)%Z then ret [(link, inl code)] else ret [])
    (λ e, ret [(link, inr (str_exn e))]).

(** The [for] loop of [check_internal_links]. *)
Fixpoint links_loop (links : list string) (checked : nat)
    (broken : list (string * (Z + string)))
    : M (list (string * (Z + string))) :=
  match links with
  | [] => ret broken
  | link :: rest =>
      if 20 <=? checked then ret broken
      else
        entry <- probe_link link ;;
        links_loop rest (S checked) (broken ++ entry)
  end.

(** The body of [check_internal_links]. *)
Definition check_internal_links_body (page_source base : string) : M unit :=
  links <- of_result (discover_links page_source base) ;;
  broken <- links_loop (env_iter env links) 0 [] ;;
  match broken with
  | [] => add "broken_links" true "No broken links found (checked up to 20)"
  | _ =>
      add "broken_links" false
        (pretty (length broken) +:+ " broken or problematic links (sample: "
         +:+ env_repr env (take 3 broken) +:+ ")")
  end.

Definition check_internal_links (page_source base : string) : M unit :=
  retry_on_stale handled (check_internal_links_body page_source base).

(** [b.text or b.get_attribute('aria-label') or ''] *)
Definition derived_text (b : Element) : M string :=
  t <- call (λ h, env_text env h b) (EvText b) ;;
  if bool_decide (t = EmptyString) then
    a <- call (λ h, env_get_attribute env h b "aria-label")
              (EvAttr b "aria-label") ;;
    match a with
    | Some label => ret label
    | None => ret EmptyString
    end
  else ret t.

Definition click_name (clicked : nat) : string :=
  "button_click_" +:+ pretty clicked.

Definition clicked_message (text : string) : string :=
  "Clicked button: " +:+ Str.dquote +:+ text +:+ Str.dquote.

Definition could_not_click_message (text : string) (e : exn) : string :=
  "Could not click " +:+ Str.dquote +:+ text +:+ Str.dquote +:+ " - "
  +:+ str_exn e.

(** The [try] statement of [safe_click_buttons] for a button [b] whose
    text is safe; the new value of [clicked]. *)
Definition click_round (b : Element) (text : string) (clicked : nat)
    : M nat :=
  try_except
    (call_unit (λ h, env_click env h b) (EvClick b) ;;
     sleep 1 ;;
     add (click_name clicked) true (clicked_message text) ;;
     call_unit (env_back env) EvBack ;;
     sleep 1 ;;
     ret (S clicked))
    (λ e,
     add (click_name clicked) false (could_not_click_message text e) ;;
     ret clicked).

(** The [for] loop of [safe_click_buttons]. *)
Fixpoint click_loop (buttons : list Element) (clicked : nat) : M nat :=
  match buttons with
  | [] => ret clicked
  | b :: rest =>
      if 3 <=? clicked then ret clicked
      else
        text <- derived_text b ;;
        if negb (is_safe_text text) then click_loop rest clicked
        else
          clicked' <- click_round b text clicked ;;
          click_loop rest clicked'
  end.

(** The body of [safe_click_buttons]. *)
Definition safe_click_buttons_body : M unit :=
  buttons <- find_elements_or_empty "button" ;;
  clicked <- click_loop buttons 0 ;;
  if clicked =? 0 then
    add "button_clicks" true
        "No safe clickable buttons found or none clicked"
  else ret tt.

Definition safe_click_buttons : M unit :=
  retry_on_stale handled safe_click_buttons_body.

End Checks.

(** ** The page checks of one page *)

Section Runner.
Variable env : Env.
Variable handled : option exn.
Variable self : SiteTester.

(** Modelled from the spec: the caller of the checks is not under src/
    (the rest of [SiteTester] is omitted there).  Section 4.4 runs the
    checks of a page in a fixed order, broken links, then form detection,
    then safe click probing, each appending to the page's [PageResult];
    section 4.3 has the caller skip to the next check when a check raises.
    The reachability and console checks record nothing by themselves in
    the source and are left out. *)
Definition run_page_checks (page_source base : string) : M unit :=
  try_except (check_internal_links env handled self page_source base)
             (λ _, ret tt) ;;
  try_except (fill_and_submit_forms env handled) (λ _, ret tt) ;;
  try_except (safe_click_buttons env handled) (λ _, ret tt).

End Runner.

(** ** What a run leaves behind *)

(** The page with [recs] appended to its tests. *)
Definition append_tests (pr : PageResult) (recs : list Test) : PageResult :=
  {| url := url pr; tests := tests pr ++ recs; screenshot := screenshot pr |}.

(** The state [s] after the calls [evs] and the records [recs]. *)
Definition grow (s : St) (evs : list Event) (recs : list Test) : St :=
  {| st_page := append_tests (st_page s) recs; st_log := st_log s ++ evs |}.

(** How the loop of [safe_click_buttons] dealt with one button. *)
Inductive Outcome : Type :=
| Skipped                   (* the text is not safe *)
| Clicked                   (* the click and the way back returned *)
| ClickFailed (e : exn)     (* the click raised *)
| BackFailed (e : exn).     (* the click returned, the way back raised *)

Record Round : Type := mkRound {
  r_elem : Element;
  r_reads : list Event;
  r_text : string;
  r_outcome : Outcome
}.

Definition outcome_events (b : Element) (o : Outcome) : list Event :=
  match o with
  | Skipped => []
  | Clicked => [EvClick b None; EvSleep 1; EvBack None; EvSleep 1]
  | ClickFailed e => [EvClick b (Some e)]
  | BackFailed e => [EvClick b None; EvSleep 1; EvBack (Some e)]
  end.

Definition outcome_tests (clicked : nat) (text : string) (o : Outcome)
    : list Test :=
  match o with
  | Skipped => []
  | Clicked => [mkTest (click_name clicked) true (clicked_message text)]
  | ClickFailed e =>
      [mkTest (click_name clicked) false (could_not_click_message text e)]
  | BackFailed e =>
      [mkTest (click_name clicked) true (clicked_message text);
       mkTest (click_name clicked) false (could_not_click_message text e)]
  end.

Definition outcome_clicked (clicked : nat) (o : Outcome) : nat :=
  match o with
  | Clicked => S clicked
  | _ => clicked
  end.

Definition round_events (r : Round) : list Event :=
  r_reads r ++ outcome_events (r_elem r) (r_outcome r).

Fixpoint rounds_events (rs : list Round) : list Event :=
  match rs with
  | [] => []
  | r :: rs' => round_events r ++ rounds_events rs'
  end.

Fixpoint rounds_tests (clicked : nat) (rs : list Round) : list Test :=
  match rs with
  | [] => []
  | r :: rs' =>
      outcome_tests clicked (r_text r) (r_outcome r)
      ++ rounds_tests (outcome_clicked clicked (r_outcome r)) rs'
  end.

Fixpoint rounds_clicked (clicked : nat) (rs : list Round) : nat :=
  match rs with
  | [] => clicked
  | r :: rs' => rounds_clicked (outcome_clicked clicked (r_outcome r)) rs'
  end.

(** Every round starts below the cap. *)
Fixpoint rounds_below (clicked : nat) (rs : list Round) : Prop :=
  match rs with
  | [] => True
  | r :: rs' =>
      clicked < 3 ∧ rounds_below (outcome_clicked clicked (r_outcome r)) rs'
  end.

(** [ev] reads the text or an attribute of [b]. *)
Definition is_read_of (b : Element) (ev : Event) : Prop :=
  match ev with
  | EvText b' _ => b' = b
  | EvAttr b' _ _ => b' = b
  | _ => False
  end.

(** The text of a round is what [derived_text] returned, its reads are the
    calls [derived_text] made, and the round clicks exactly when the text
    is safe. *)
Definition round_ok (env : Env) (r : Round) : Prop :=
  (∃ s, derived_text env (r_elem r) s
        = (inr (r_text r), grow s (r_reads r) []))
  ∧ Forall (is_read_of (r_elem r)) (r_reads r)
  ∧ (is_safe_text (r_text r) = false ↔ r_outcome r = Skipped).

(** The number of members of [l] that satisfy [f]. *)
Definition count {A} (f : A → bool) (l : list A) : nat :=
  length (List.filter f l).

Definition is_click (ev : Event) : bool :=
  match ev with EvClick _ _ => true | _ => false end.

Definition is_click_ok (ev : Event) : bool :=
  match ev with EvClick _ None => true | _ => false end.

Definition is_click_failed (ev : Event) : bool :=
  match ev with EvClick _ (Some _) => true | _ => false end.

Definition is_back_failed (ev : Event) : bool :=
  match ev with EvBack (Some _) => true | _ => false end.

(** The record [safe_click_buttons] closes with when nothing was clicked. *)
Definition summary_test : Test :=
  mkTest "button_clicks" true
         "No safe clickable buttons found or none clicked".

(** The number of tests of the page that are named [n]. *)
Definition count_name (n : string) (pr : PageResult) : nat :=
  length (filter (λ t, name t = n) (tests pr)).

(** The link an anchor with [href] attribute [href0] stands for, if it is
    kept, or the exception of [urljoin]: the description of one turn of the
    loop of [discover_links]. *)
Definition anchor_link (env : Env) (self : SiteTester) (base href0 : string)
    : exn + option string :=
  if Str.startswith (Str.strip href0) "mailto:"
     || Str.startswith (Str.strip href0) "tel:"
  then inr None
  else
    match env_urljoin env base (Str.strip href0) with
    | inl e => inl e
    | inr absolute =>
        if Str.startswith absolute "javascript:"
           || negb (same_domain env self (Str.split_head "#" absolute))
        then inr None
        else inr (Some (Str.split_head "#" absolute))
    end.

(** What the [try] statement of [safe_click_buttons] comes to for a button
    [b] whose text is safe, in the state [s] reached after the text was
    read: the answers of the browser decide. *)
Definition click_outcome (env : Env) (b : Element) (s : St) : Outcome :=
  match env_click env (st_log s) b with
  | Some e => ClickFailed e
  | None =>
      match env_back env (st_log s ++ [EvClick b None; EvSleep 1]) with
      | Some e => BackFailed e
      | None => Clicked
      end
  end.

(** The rounds of a run of the loop that starts in state [s] with [clicked]
    clicks counted.  Each round starts below the cap, in the state the
    round before left; it reads the text of its button there; it is
    skipped when the text is not safe, and otherwise does what the browser
    answers. *)
Fixpoint rounds_from (env : Env) (clicked : nat) (s : St)
    (rounds : list Round) : Prop :=
  match rounds with
  | [] => True
  | r :: rest =>
      clicked < 3
      ∧ derived_text env (r_elem r) s
        = (inr (r_text r), grow s (r_reads r) [])
      ∧ r_outcome r
        = (if is_safe_text (r_text r)
           then click_outcome env (r_elem r) (grow s (r_reads r) [])
           else Skipped)
      ∧ rounds_from env (outcome_clicked clicked (r_outcome r))
          (grow s (round_events r)
                (outcome_tests clicked (r_text r) (r_outcome r)))
          rest
  end.

(** What a probe adds to the list of broken links: the link with its status
    code when the code is 400 or more, the link with the text of the
    exception when the probe raised, nothing otherwise. *)
Definition broken_of (ev : Event) : list (string * (Z + string)) :=
  match ev with
  | EvHead link _ (inr code) =>
      if (400 <=? code)%Z then [(link, inl code)] else []
  | EvHead link _ (inl e) => [(link, inr (str_exn e))]
  | _ => []
  end.

(** A record that [safe_click_buttons] may append on behalf of a text that
    is not blacklisted: the summary, or the record of a click on a button
    with such a text. *)
Definition safe_record (t : Test) : Prop :=
  t = summary_test
  ∨ ∃ clicked text,
      ¬ blacklisted text
      ∧ name t = click_name clicked
      ∧ (message t = clicked_message text
         ∨ ∃ e, message t = could_not_click_message text e).

(** ** Sample collaborators, for the concrete runs below *)

(** What [urlparse] answers on a few strings. *)
Definition sample_urlparse (u : string) : exn + (string * string) :=
  if bool_decide (u = "http://") then inr ("http", EmptyString)
  else if bool_decide (u = "http://not a url") then inr ("http", "not a url")
  else if bool_decide (u = "http://[") then
    inl (OtherException "Invalid IPv6 URL")
  else if bool_decide (u = "http://other.org/") then inr ("http", "other.org")
  else inr ("http", "example.com").

(** What [urljoin] answers: the [href] itself when it is an absolute URL,
    as all those of the samples are, and the error of an unmatched
    bracket. *)
Definition sample_urljoin (base href : string) : exn + string :=
  if bool_decide (href = "http://[") then
    inl (OtherException "Invalid IPv6 URL")
  else inr href.

(** A browser given by its five calls; every probe answers 200. *)
Definition sample_env
    (find : list Event → string → exn + list Element)
    (text : list Event → Element → exn + string)
    (click : list Event → Element → option exn)
    (back : list Event → option exn) : Env :=
  {| env_find_elements := find;
     env_text := text;
     env_get_attribute := λ _ _ _, inr None;
     env_click := click;
     env_back := back;
     env_head := λ _ _ _, inr 200%Z;
     env_urlparse := sample_urlparse;
     env_urljoin := sample_urljoin;
     env_anchor_hrefs := λ _, inr [];
     env_repr := λ _, "[...]";
     env_iter := elements;
     env_utcnow := 0%Z;
     env_chrome := None |}.

Definition start (u : string) : St :=
  {| st_page := PageResult_init u; st_log := [] |}.


(** The same collaborators with another HTTP client. *)
Definition with_head (env : Env)
    (head : list Event → string → nat → exn + Z) : Env :=
  {| env_find_elements := env_find_elements env;
     env_text := env_text env;
     env_get_attribute := env_get_attribute env;
     env_click := env_click env;
     env_back := env_back env;
     env_head := head;
     env_urlparse := env_urlparse env;
     env_urljoin := env_urljoin env;
     env_anchor_hrefs := env_anchor_hrefs env;
     env_repr := env_repr env;
     env_iter := env_iter env;
     env_utcnow := env_utcnow env;
     env_chrome := env_chrome env |}.

(** The same collaborators with another page markup: the [href] values of
    its anchors. *)
Definition with_hrefs (env : Env) (hrefs : list string) : Env :=
  {| env_find_elements := env_find_elements env;
     env_text := env_text env;
     env_get_attribute := env_get_attribute env;
     env_click := env_click env;
     env_back := env_back env;
     env_head := env_head env;
     env_urlparse := env_urlparse env;
     env_urljoin := env_urljoin env;
     env_anchor_hrefs := λ _, inr hrefs;
     env_repr := env_repr env;
     env_iter := env_iter env;
     env_utcnow := env_utcnow env;
     env_chrome := env_chrome env |}.

(** A page without buttons, in a browser where nothing fails. *)
Definition quiet_env : Env :=
  sample_env (λ _ _, inr []) (λ _ _, inr EmptyString) (λ _ _, None)
             (λ _, None).

(** One button, whose text cannot be read: the element is stale at every
    attempt. *)
Definition always_stale_env : Env :=
  sample_env (λ _ _, inr [0])
             (λ _ _, inl (StaleElementReferenceException "stale"))
             (λ _ _, None) (λ _, None).

(** The number of lookups of the buttons so far: the attempts made by
    [safe_click_buttons]. *)
Definition finds (log : list Event) : nat :=
  count (λ ev, match ev with
               | EvFind tag _ => bool_decide (tag = "button")
               | _ => false
               end) log.

(** One button labelled Go, stale when its text is read during the first
    two attempts. *)
Definition stale_twice_env : Env :=
  sample_env (λ _ _, inr [0])
             (λ log _, if finds log <? 3
                       then inl (StaleElementReferenceException "stale")
                       else inr "Go")
             (λ _ _, None) (λ _, None).

(** An HTTP client that obtains [code] for every link. *)
Definition answers_env (code : Z) : Env :=
  with_head quiet_env (λ _ _ _, inr code).

(** An HTTP client that cannot connect. *)
Definition offline_env : Env :=
  with_head quiet_env (λ _ _ _, inl (OtherException "Connection refused")).

(** The session of [http://example.com]. *)
Definition sample_self : SiteTester :=
  {| base_url := "http://example.com"; scheme := "http";
     domain := "example.com"; visited := ∅;
     to_visit := ["http://example.com"]; results := ∅; start_time := 0%Z |}.

(** A page with five anchors. *)
Definition five_anchors_env : Env :=
  with_hrefs quiet_env
    ["http://example.com/a#top"; "mailto:someone@example.com";
     "http://other.org/"; " http://example.com/a "; "tel:5550100"].

(** The same page, where the link it leads to answers 404. *)
Definition missing_page_env : Env :=
  with_head five_anchors_env (λ _ _ _, inr 404%Z).

(** Two buttons, Logout Now and Next, in a browser where nothing fails. *)
Definition logout_env : Env :=
  sample_env (λ _ _, inr [0; 1])
             (λ _ b, if b =? 0 then inr "Logout Now" else inr "Next")
             (λ _ _, None) (λ _, None).

(** One button without text and without label. *)
Definition unlabeled_env : Env :=
  sample_env (λ _ _, inr [0]) (λ _ _, inr EmptyString) (λ _ _, None)
             (λ _, None).

(** A page that changes under the check.  The first lookup finds the
    buttons 0, 1 and 2, and button 2 is stale; every later lookup finds
    the buttons 3, 4 and 5.  All of them are labelled Go. *)
Definition changing_page_env : Env :=
  sample_env (λ log _, if finds log =? 0 then inr [0; 1; 2]
                       else inr [3; 4; 5])
             (λ _ b, if b =? 2
                     then inl (StaleElementReferenceException "stale")
                     else inr "Go")
             (λ _ _, None) (λ _, None).

(** Two buttons, Go and Next; the second is stale during the first
    attempt. *)
Definition stale_once_env : Env :=
  sample_env (λ _ tag, if bool_decide (tag = "button") then inr [0; 1]
                       else inr [])
             (λ log b, if b =? 0 then inr "Go"
                       else if finds log <? 2
                            then inl (StaleElementReferenceException "stale")
                            else inr "Next")
             (λ _ _, None) (λ _, None).

(** Four buttons labelled Go, in a browser that cannot go back. *)
Definition no_way_back_env : Env :=
  sample_env (λ _ _, inr [0; 1; 2; 3]) (λ _ _, inr "Go") (λ _ _, None)
             (λ _, Some (OtherException "timeout")).

(** Two buttons, Go and Next; the click on the first is intercepted. *)
Definition intercepted_env : Env :=
  sample_env (λ _ _, inr [0; 1])
             (λ _ b, if b =? 0 then inr "Go" else inr "Next")
             (λ _ b, if b =? 0
                     then Some (OtherException "click intercepted")
                     else None)
             (λ _, None).

(** Five buttons labelled Go, in a browser where nothing fails. *)
Definition five_buttons_env : Env :=
  sample_env (λ _ _, inr [0; 1; 2; 3; 4]) (λ _ _, inr "Go") (λ _ _, None)
             (λ _, None).

(** A page with two anchors, the first with an unmatched bracket in its
    [href]. *)
Definition bracket_env : Env :=
  with_hrefs quiet_env ["http://["; "http://example.com/ok"].

(** ** [grab_console_errors] *)

Section Console.
(** The strings of Python, of any code points, with their [str.upper], and
    the string a literal of the source stands for.  The keys of a
    dictionary are only compared with the key [level]. *)
Context {pystr : Type} `{EqDecision pystr}.
Variable upper : pystr → pystr.
Variable str_lit : string → pystr.

(** [l['level'].upper() in ('SEVERE', 'ERROR')] *)
Definition is_error_level (level : pystr) : bool :=
  bool_decide (upper level = str_lit "SEVERE")
  || bool_decide (upper level = str_lit "ERROR").

(** The list comprehension of [grab_console_errors] over the entries of
    the log, each a dictionary from strings to strings; [None] when
    [l['level']] raises [KeyError] for an entry. *)
Fixpoint console_errors (logs : list (gmap string pystr))
    : option (list (gmap string pystr)) :=
  match logs with
  | [] => Some []
  | l :: rest =>
      match l !! "level" with
      | None => None
      | Some level =>
          match console_errors rest with
          | None => None
          | Some errors =>
              Some (if is_error_level level then l :: errors else errors)
          end
      end
  end.

(** [SiteTester.grab_console_errors], given what
    [self.driver.get_log('browser')] answers. *)
Definition grab_console_errors (get_log : exn + list (gmap string pystr))
    : list (gmap string pystr) :=
  match get_log with
  | inl _ => []
  | inr logs =>
      match console_errors logs with
      | Some errors => errors
      | None => []
      end
  end.

End Console.

(** [str.upper] on the strings of the sample console, which are made of
    ASCII characters: a small letter becomes the capital one. *)
Definition ascii_upper_char (c : ascii) : ascii :=
  let n := nat_of_ascii c in
  if (97 <=? n) && (n <=? 122) then ascii_of_nat (n - 32) else c.

Fixpoint ascii_upper (s : string) : string :=
  match s with
  | EmptyString => EmptyString
  | String c s' => String (ascii_upper_char c) (ascii_upper s')
  end.

(** The element a call clicks on. *)
Definition click_elem (ev : Event) : option Element :=
  match ev with EvClick b _ => Some b | _ => None end.

(** A lookup of the buttons. *)
Definition is_find_button (ev : Event) : bool :=
  match ev with
  | EvFind tag _ => bool_decide (tag = "button")
  | _ => false
  end.

(** A console with an error, a warning and a severe entry. *)
Definition sample_console : list (gmap string string) :=
  [ {[ "level" := "error"; "message" := "x is not defined" ]};
    {[ "level" := "WARNING"; "message" := "deprecated" ]};
    {[ "level" := "SEVERE"; "message" := "404 (Not Found)" ]} ].

(** Two buttons, Delete and Buy now, in a browser where nothing fails. *)
Definition shop_env : Env :=
  sample_env (λ _ _, inr [0; 1])
             (λ _ b, if b =? 0 then inr "Delete" else inr "Buy now")
             (λ _ _, None) (λ _, None).

(** ** Facts on strings *)

Lemma app_String (c : ascii) (a b : string) :
  String c a +:+ b = String c (a +:+ b).
Proof. reflexivity. Qed.

Lemma app_Empty (b : string) : EmptyString +:+ b = b.
Proof. reflexivity. Qed.

Ltac str_simpl := rewrite ?app_String, ?app_Empty in *; simpl in *.

Lemma startswith_spec (s p : string) :
  Str.startswith s p = true ↔ ∃ post, s = p +:+ post.
Proof.
  revert s. induction p as [|c p IH]; intros s; simpl.
  - split; [intros _; by exists s | done].
  - destruct s as [|d s]; simpl.
    + split; [done | intros [post H]; discriminate].
    + case_bool_decide as Hcd.
      * subst d. rewrite IH.
        split; intros [post H]; exists post; str_simpl; congruence.
      * split; [done | intros [post H]; str_simpl; congruence].
Qed.

Lemma re_search_spec (p t : string) :
  Str.re_search p t = true ↔ ∃ pre post, t = pre +:+ p +:+ post.
Proof.
  induction t as [|c t IH]; simpl.
  - rewrite orb_false_r, startswith_spec. split.
    + intros [post H]. by exists EmptyString, post.
    + intros [pre [post H]]. destruct pre; [by exists post | discriminate].
  - rewrite orb_true_iff, startswith_spec, IH. split.
    + intros [[post H] | [pre [post H]]].
      * by exists EmptyString, post.
      * exists (String c pre), post. str_simpl. by rewrite H.
    + intros [pre [post H]]. destruct pre as [|d pre]; str_simpl.
      * left. by exists post.
      * right. exists pre, post. congruence.
Qed.

Lemma lower_app (a b : string) :
  Str.lower (a +:+ b) = Str.lower a +:+ Str.lower b.
Proof. induction a as [|c a IH]; str_simpl; [done | by rewrite IH]. Qed.

Lemma lower_split (t a b : string) :
  Str.lower t = a +:+ b →
  ∃ a' b', t = a' +:+ b' ∧ Str.lower a' = a ∧ Str.lower b' = b.
Proof.
  revert t. induction a as [|c a IH]; intros t H; str_simpl.
  - by exists EmptyString, t.
  - destruct t as [|d t]; [discriminate|]. simpl in H.
    injection H as Hc Ht. destruct (IH _ Ht) as (a' & b' & -> & Ha & Hb).
    exists (String d a'), b'. str_simpl. by rewrite Hc, Ha.
Qed.

Lemma re_search_lower (p t : string) :
  Str.re_search (Str.lower p) (Str.lower t) = true ↔ ci_occurs p t.
Proof.
  rewrite re_search_spec. split.
  - intros (pre & post & H).
    apply lower_split in H as (pre' & r & -> & Hpre & H).
    apply lower_split in H as (mid & post' & -> & Hmid & Hpost).
    by exists pre', mid, post'.
  - intros (pre & mid & post & -> & H).
    exists (Str.lower pre), (Str.lower post).
    by rewrite !lower_app, H.
Qed.

Lemma is_safe_text_loop_false (ps : list string) (t : string) :
  is_safe_text_loop ps t = false ↔ ∃ p, p ∈ ps ∧ Str.re_search p t = true.
Proof.
  induction ps as [|p ps IH]; simpl.
  - split; [done | intros (p & Hp & _); by apply elem_of_nil in Hp].
  - destruct (Str.re_search p t) eqn:Hs.
    + split; [intros _; exists p; split; [left | done] | done].
    + rewrite IH. split; intros (q & Hq & Hqs).
      * exists q. split; [by right | done].
      * exists q. apply elem_of_cons in Hq as [-> | Hq]; [congruence | done].
Qed.

Lemma blacklist_lower (p : string) :
  p ∈ SAFE_CLICK_BLACKLIST → Str.lower p = p ∧ p ≠ EmptyString.
Proof.
  unfold SAFE_CLICK_BLACKLIST. rewrite !elem_of_cons, elem_of_nil.
  intros H. repeat (destruct H as [-> | H]; [by split|]). done.
Qed.

Lemma lower_empty (t : string) : Str.lower t = EmptyString → t = EmptyString.
Proof. by destruct t. Qed.

(** [is_safe_text] refuses exactly the texts in which an entry of the
    blacklist occurs, the case of letters ignored. *)
Lemma is_safe_text_false (t : string) :
  is_safe_text t = false ↔ blacklisted t.
Proof.
  unfold is_safe_text, blacklisted. case_bool_decide as Ht.
  - subst t. split; [done|]. intros (p & Hp & pre & mid & post & H & Hl).
    apply blacklist_lower in Hp as [Hp Hne].
    destruct pre; [|discriminate]. destruct mid; [|discriminate].
    simpl in Hl. symmetry in Hl. by apply lower_empty in Hl.
  - rewrite is_safe_text_loop_false. split; intros (p & Hp & H); exists p.
    + split; [done|]. apply re_search_lower.
      by rewrite (proj1 (blacklist_lower _ Hp)).
    + split; [done|]. apply re_search_lower in H.
      by rewrite (proj1 (blacklist_lower _ Hp)) in H.
Qed.

(** ** [normalise] *)

(** C8. [normalise] is idempotent. *)
Theorem normalise_idempotent (u : string) :
  normalise (normalise u) = normalise u.
Proof.
  unfold normalise.
  destruct (Str.startswith u "http") eqn:Hu.
  - by rewrite Hu.
  - reflexivity.
Qed.

(** ** Facts on runs *)

Lemma grow_nil (s : St) : grow s [] [] = s.
Proof.
  destruct s as [[u t sc] l]. unfold grow, append_tests. simpl.
  by rewrite !app_nil_r.
Qed.

Lemma grow_grow (s : St) (e1 e2 : list Event) (r1 r2 : list Test) :
  grow (grow s e1 r1) e2 r2 = grow s (e1 ++ e2) (r1 ++ r2).
Proof. unfold grow, append_tests. simpl. by rewrite !app_assoc. Qed.

Lemma emit_run (ev : Event) (s : St) : emit ev s = (inr tt, grow s [ev] []).
Proof.
  destruct s as [[u t sc] l]. unfold emit, grow, append_tests. simpl.
  by rewrite app_nil_r.
Qed.

Lemma sleep_run (n : nat) (s : St) :
  sleep n s = (inr tt, grow s [EvSleep n] []).
Proof. apply emit_run. Qed.

Lemma add_run (n : string) (p : bool) (m : string) (s : St) :
  add n p m s = (inr tt, grow s [] [mkTest n p m]).
Proof.
  destruct s as [[u t sc] l]. unfold add, grow, append_tests,
    PageResult_add. simpl. by rewrite app_nil_r.
Qed.

Lemma call_run {A} (answer : list Event → exn + A) (ev : exn + A → Event)
    (s : St) :
  call answer ev s = (answer (st_log s), grow s [ev (answer (st_log s))] []).
Proof.
  destruct s as [[u t sc] l]. unfold call, grow, append_tests. simpl.
  by rewrite app_nil_r.
Qed.

Lemma call_unit_run (answer : list Event → option exn)
    (ev : option exn → Event) (s : St) :
  call_unit answer ev s
  = (match answer (st_log s) with None => inr tt | Some e => inl e end,
     grow s [ev (answer (st_log s))] []).
Proof.
  destruct s as [[u t sc] l]. unfold call_unit, grow, append_tests. simpl.
  by rewrite app_nil_r.
Qed.

Lemma grow_log (s : St) (evs : list Event) (recs : list Test) :
  st_log (grow s evs recs) = st_log s ++ evs.
Proof. reflexivity. Qed.

(** ** [retry_on_stale] *)

Section RetryFacts.
Context {A : Type}.
Variable handled : option exn.
Variable func : M A.

(** A first attempt that returns is the result. *)
Lemma retry_on_stale_first_attempt (s s1 : St) (a : A) :
  func s = (inr a, s1) → retry_on_stale handled func s = (inr a, s1).
Proof. intros H. unfold retry_on_stale. simpl. by rewrite H. Qed.

(** An exception other than staleness goes to the caller at once. *)
Lemma retry_on_stale_other_exception (s s1 : St) (e : exn) :
  func s = (inl e, s1) →
  (∀ m, e ≠ StaleElementReferenceException m) →
  retry_on_stale handled func s = (inl e, s1).
Proof.
  intros H He. unfold retry_on_stale. simpl. rewrite H.
  destruct e; [by destruct (He msg) | done | done].
Qed.

(** Staleness twice, then a result at the third attempt: the result is
    returned, after three runs of the body and two pauses of a second. *)
Lemma retry_on_stale_third_attempt (s s1 s2 s3 : St) (m1 m2 : string)
    (a : A) :
  func s = (inl (StaleElementReferenceException m1), s1) →
  func (grow s1 [EvSleep 1] [])
    = (inl (StaleElementReferenceException m2), s2) →
  func (grow s2 [EvSleep 1] []) = (inr a, s3) →
  retry_on_stale handled func s = (inr a, s3).
Proof.
  intros H1 H2 H3. unfold retry_on_stale. simpl. rewrite H1.
  unfold bind at 1. rewrite sleep_run, H2.
  unfold bind at 1. by rewrite sleep_run, H3.
Qed.

(** Staleness at each of the three attempts: the bare [raise] that follows
    the loop runs, after a third pause. *)
Lemma retry_on_stale_three_stale (s s1 s2 s3 : St) (m1 m2 m3 : string) :
  func s = (inl (StaleElementReferenceException m1), s1) →
  func (grow s1 [EvSleep 1] [])
    = (inl (StaleElementReferenceException m2), s2) →
  func (grow s2 [EvSleep 1] [])
    = (inl (StaleElementReferenceException m3), s3) →
  retry_on_stale handled func s = bare_raise handled (grow s3 [EvSleep 1] []).
Proof.
  intros H1 H2 H3. unfold retry_on_stale. simpl. rewrite H1.
  unfold bind at 1. rewrite sleep_run, H2.
  unfold bind at 1. rewrite sleep_run, H3.
  unfold bind at 1. by rewrite sleep_run.
Qed.

(** A relation between the state before and the state after that the body
    and the pause respect is respected by the wrapper. *)
Lemma retry_loop_respects (R : St → St → Prop) :
  (∀ s, R s s) →
  (∀ s1 s2 s3, R s1 s2 → R s2 s3 → R s1 s3) →
  (∀ s, R s (func s).2) →
  (∀ s, R s (grow s [EvSleep 1] [])) →
  ∀ n s, R s (retry_loop handled n func s).2.
Proof.
  intros Hrefl Htrans Hfunc Hsleep n. induction n as [|n IH]; intros s.
  - simpl. unfold bare_raise. destruct handled; apply Hrefl.
  - simpl. specialize (Hfunc s). destruct (func s) as [[e|a] s1]; simpl in *.
    + destruct e; try done.
      unfold bind. rewrite sleep_run.
      eapply Htrans; [exact Hfunc|]. eapply Htrans; [apply Hsleep|].
      apply IH.
    + done.
Qed.

(** A measure that a run of the body raises by at most one, and not at all
    when the body raises, is raised by at most one by the wrapper. *)
Lemma retry_loop_measure (mu : St → nat) :
  (∀ s, mu (grow s [EvSleep 1] []) = mu s) →
  (∀ s, match func s with
        | (inr _, s') => mu s' ≤ mu s + 1
        | (inl _, s') => mu s' = mu s
        end) →
  ∀ n s, mu (retry_loop handled n func s).2 ≤ mu s + 1.
Proof.
  intros Hsleep Hfunc n. induction n as [|n IH]; intros s.
  - simpl. unfold bare_raise. destruct handled; simpl; lia.
  - simpl. specialize (Hfunc s). destruct (func s) as [[e|a] s1]; simpl.
    + destruct e; simpl; try lia.
      unfold bind. rewrite sleep_run.
      specialize (IH (grow s1 [EvSleep 1] [])). rewrite Hsleep in IH. lia.
    + done.
Qed.

(** The same for a measure the body never raises. *)
Lemma retry_loop_measure_0 (mu : St → nat) :
  (∀ s, mu (grow s [EvSleep 1] []) = mu s) →
  (∀ s, mu (func s).2 = mu s) →
  ∀ n s, mu (retry_loop handled n func s).2 = mu s.
Proof.
  intros Hsleep Hfunc n. induction n as [|n IH]; intros s.
  - simpl. unfold bare_raise. by destruct handled.
  - simpl. specialize (Hfunc s). destruct (func s) as [[e|a] s1]; simpl in *.
    + destruct e; simpl; try done.
      unfold bind. rewrite sleep_run.
      by rewrite IH, Hsleep.
    + done.
Qed.

End RetryFacts.

(** C1. When the body raises staleness at each of its three attempts, and
    the caller is not itself handling an exception, what reaches the caller
    is not the staleness failure: it is the [RuntimeError] of a bare
    [raise] that has no exception to raise again. *)
Theorem retry_on_stale_exhausted {A} (func : M A) (s s1 s2 s3 : St)
    (m1 m2 m3 : string) :
  func s = (inl (StaleElementReferenceException m1), s1) →
  func (grow s1 [EvSleep 1] [])
    = (inl (StaleElementReferenceException m2), s2) →
  func (grow s2 [EvSleep 1] [])
    = (inl (StaleElementReferenceException m3), s3) →
  retry_on_stale None func s
  = (inl (RuntimeError "No active exception to reraise"),
     grow s3 [EvSleep 1] []).
Proof.
  intros H1 H2 H3.
  by rewrite (retry_on_stale_three_stale None func s s1 s2 s3 m1 m2 m3).
Qed.

Lemma retry_on_stale_exhausted_witness :
  safe_click_buttons always_stale_env None (start "http://example.com")
  = (inl (RuntimeError "No active exception to reraise"),
     grow (start "http://example.com")
       [EvFind "button" (inr [0]);
        EvText 0 (inl (StaleElementReferenceException "stale"));
        EvSleep 1;
        EvFind "button" (inr [0]);
        EvText 0 (inl (StaleElementReferenceException "stale"));
        EvSleep 1;
        EvFind "button" (inr [0]);
        EvText 0 (inl (StaleElementReferenceException "stale"));
        EvSleep 1] []).
Proof.
  unfold safe_click_buttons.
  rewrite (retry_on_stale_exhausted
             (safe_click_buttons_body always_stale_env)
             (start "http://example.com") _ _ _ "stale" "stale" "stale"
             eq_refl eq_refl eq_refl).
  reflexivity.
Defined.

(** Scenario D of the specification, on [safe_click_buttons]: stale twice,
    the button is clicked at the third attempt and the check records a
    pass; [find_elements] was called three times. *)
Example safe_click_buttons_stale_twice :
  let r := safe_click_buttons stale_twice_env None
             (start "http://example.com") in
  r.1 = inr tt
  ∧ tests (st_page r.2)
    = [mkTest "button_click_0" true (clicked_message "Go")]
  ∧ finds (st_log r.2) = 3.
Proof. vm_compute. done. Qed.

(** ** [http_status_check] *)

(** C4. The reachability check never raises.  Whenever a status code is
    obtained it returns that code with an empty message, whatever the code;
    it returns no code, with the text of the exception, exactly when the
    probe raises. *)
Theorem http_status_check_outcome (env : Env) (u : string) (s : St) :
  (∀ code, env_head env (st_log s) u 10 = inr code →
     http_status_check env u s
     = (inr (Some code, EmptyString), grow s [EvHead u 10 (inr code)] []))
  ∧ (∀ e, env_head env (st_log s) u 10 = inl e →
     http_status_check env u s
     = (inr (None, str_exn e), grow s [EvHead u 10 (inl e)] []))
  ∧ (∀ msg, (http_status_check env u s).1 = inr (None, msg) →
     ∃ e, env_head env (st_log s) u 10 = inl e ∧ msg = str_exn e)
  ∧ (∀ e, (http_status_check env u s).1 ≠ inl e).
Proof.
  unfold http_status_check, try_except, bind. rewrite call_run.
  destruct (env_head env (st_log s) u 10) as [e|code] eqn:Hr; simpl.
  - unfold ret. repeat split; try done.
    + by intros e' [= <-].
    + intros msg [= <-]. by exists e.
  - unfold ret. repeat split; try done. by intros code' [= <-].
Qed.

Lemma http_status_check_outcome_witness :
  (http_status_check (answers_env 404) "http://example.com/missing"
     (start "http://example.com")).1
  = inr (Some 404%Z, EmptyString)
  ∧ (http_status_check (answers_env 500) "http://example.com/"
       (start "http://example.com")).1
    = inr (Some 500%Z, EmptyString)
  ∧ (http_status_check offline_env "http://example.com/"
       (start "http://example.com")).1
    = inr (None, "Connection refused").
Proof.
  split; [|split].
  - by rewrite (proj1 (http_status_check_outcome (answers_env 404)
                  "http://example.com/missing" (start "http://example.com"))
                 404%Z eq_refl).
  - by rewrite (proj1 (http_status_check_outcome (answers_env 500)
                  "http://example.com/" (start "http://example.com"))
                 500%Z eq_refl).
  - by rewrite (proj1 (proj2 (http_status_check_outcome offline_env
                  "http://example.com/" (start "http://example.com")))
                 (OtherException "Connection refused") eq_refl).
Defined.

(** ** [SiteTester.__init__] *)

(** C5, as the code has it.  No base URL is refused for its form:
    [normalise] returns a string for every input, and the construction
    fails only when [urlparse] raises on that string or when the browser
    cannot be acquired.  Otherwise a session is built on
    [normalise raw], with the scheme and the network location [urlparse]
    gives, whatever they are. *)
Theorem SiteTester_init_outcome (env : Env) (raw : string) :
  ((∃ e, SiteTester_init env raw = inl e)
   ↔ (∃ e, env_urlparse env (normalise raw) = inl e)
     ∨ (∃ e, env_chrome env = Some e))
  ∧ (∀ self, SiteTester_init env raw = inr self →
     base_url self = normalise raw
     ∧ env_urlparse env (normalise raw) = inr (scheme self, domain self)
     ∧ to_visit self = [normalise raw]
     ∧ visited self = ∅ ∧ results self = ∅).
Proof.
  unfold SiteTester_init.
  destruct (env_urlparse env (normalise raw)) as [e|[sch netloc]] eqn:Hp.
  - split; [|done]. split; [intros _; left; by exists e | intros _; by exists e].
  - destruct (env_chrome env) as [e|] eqn:Hc.
    + split; [|done].
      split; [intros _; right; by exists e | intros _; by exists e].
    + split.
      * split; [by intros [e He] | by intros [[e He] | [e He]]].
      * by intros self [= <-].
Qed.

Lemma SiteTester_init_outcome_witness :
  ∃ self, SiteTester_init quiet_env "example.com" = inr self
          ∧ base_url self = normalise "example.com".
Proof.
  destruct (SiteTester_init quiet_env "example.com") as [e|self] eqn:H.
  - discriminate H.
  - exists self. split; [reflexivity|].
    exact (proj1 (proj2 (SiteTester_init_outcome quiet_env "example.com")
                    self H)).
Defined.

(** C5 as it is stated fails: the empty string and a string with spaces
    in it are accepted as base URLs, and the session of the first has an
    empty domain. *)
Lemma SiteTester_init_accepts_malformed :
  (∃ self, SiteTester_init quiet_env EmptyString = inr self
           ∧ base_url self = "http://" ∧ domain self = EmptyString)
  ∧ (∃ self, SiteTester_init quiet_env "not a url" = inr self
             ∧ base_url self = "http://not a url"
             ∧ domain self = "not a url").
Proof. split; eexists; vm_compute; done. Qed.

(** ** [discover_links] *)

Lemma split_head_no_sep (sep : ascii) (s : string) :
  Str.has_char sep (Str.split_head sep s) = false.
Proof.
  induction s as [|c s IH]; simpl; [done|].
  case_bool_decide as Hc; simpl; [done|].
  rewrite IH. case_bool_decide; [congruence | done].
Qed.

Lemma rstrip_String (c : ascii) (s : string) :
  Str.isspace c = false → Str.rstrip (String c s) = String c (Str.rstrip s).
Proof. intros Hc. simpl. rewrite Hc. by destruct (Str.rstrip s). Qed.

Lemma lstrip_String (c : ascii) (s : string) :
  Str.isspace c = false → Str.lstrip (String c s) = String c s.
Proof. intros Hc. simpl. by rewrite Hc. Qed.

(** Stripping keeps a leading [mailto:] or [tel:]. *)
Lemma strip_keeps_mailto (href : string) :
  Str.startswith href "mailto:" = true →
  Str.startswith (Str.strip href) "mailto:" = true.
Proof.
  rewrite startswith_spec. intros [post ->]. unfold Str.strip.
  rewrite !app_String, app_Empty, lstrip_String by reflexivity.
  by rewrite !rstrip_String by reflexivity.
Qed.

Lemma strip_keeps_tel (href : string) :
  Str.startswith href "tel:" = true →
  Str.startswith (Str.strip href) "tel:" = true.
Proof.
  rewrite startswith_spec. intros [post ->]. unfold Str.strip.
  rewrite !app_String, app_Empty, lstrip_String by reflexivity.
  by rewrite !rstrip_String by reflexivity.
Qed.

Section DiscoverLinks.
Variable env : Env.
Variable self : SiteTester.

Lemma discover_links_step_anchor (base : string) (links : gset string)
    (href : string) :
  discover_links_step env self base links href
  = match anchor_link env self base href with
    | inl e => inl e
    | inr (Some x) => inr (links ∪ {[x]})
    | inr None => inr links
    end.
Proof.
  unfold discover_links_step, anchor_link.
  destruct (Str.startswith (Str.strip href) "mailto:"); [reflexivity|].
  destruct (Str.startswith (Str.strip href) "tel:"); [reflexivity|].
  cbn [orb].
  destruct (env_urljoin env base (Str.strip href)) as [e|absolute];
    [reflexivity|].
  destruct (Str.startswith absolute "javascript:"); [reflexivity|].
  by destruct (same_domain env self (Str.split_head "#" absolute)).
Qed.

(** A loop that returns has met no anchor on which [urljoin] raises, and
    has added the links of the anchors that are kept. *)
Lemma discover_links_loop_inr (base : string) (hrefs : list string)
    (acc links : gset string) :
  discover_links_loop env self base acc hrefs = inr links →
  (∀ href, href ∈ hrefs → ∃ o, anchor_link env self base href = inr o)
  ∧ ∀ x, x ∈ links
         ↔ x ∈ acc ∨ ∃ href, href ∈ hrefs
                             ∧ anchor_link env self base href = inr (Some x).
Proof.
  revert acc. induction hrefs as [|h hrefs IH]; intros acc; simpl.
  - intros [= <-]. split.
    + intros href Hin. by apply elem_of_nil in Hin.
    + intros x. split; [by left | intros [H | (href & Hin & _)]; [done|]].
      by apply elem_of_nil in Hin.
  - rewrite discover_links_step_anchor.
    destruct (anchor_link env self base h) as [e|o] eqn:Hh; [discriminate|].
    intros Hloop.
    assert (∃ acc', discover_links_loop env self base acc' hrefs = inr links
                    ∧ ∀ x, x ∈ acc' ↔ x ∈ acc ∨ o = Some x)
      as (acc' & Hloop' & Hacc).
    { destruct o as [y|]; eexists; (split; [exact Hloop|]); intros x.
      - rewrite elem_of_union, elem_of_singleton. split.
        + intros [H | ->]; [by left | by right].
        + intros [H | [= ->]]; [by left | by right].
      - split; [by left | by intros [H | H]]. }
    destruct (IH acc' Hloop') as [Hall Hmem]. split.
    + intros href Hin. apply elem_of_cons in Hin as [-> | Hin];
        [by exists o | by apply Hall].
    + intros x. rewrite Hmem, Hacc. split.
      * intros [[H | ->] | (href & Hin & Hl)].
        -- by left.
        -- right. exists h. split; [left | done].
        -- right. exists href. split; [by right | done].
      * intros [H | (href & Hin & Hl)]; [by left; left|].
        apply elem_of_cons in Hin as [-> | Hin].
        -- left. right. congruence.
        -- right. by exists href.
Qed.

(** A loop that raises has met an anchor on which [urljoin] raises. *)
Lemma discover_links_loop_inl (base : string) (hrefs : list string)
    (acc : gset string) (e : exn) :
  discover_links_loop env self base acc hrefs = inl e →
  ∃ href, href ∈ hrefs ∧ anchor_link env self base href = inl e.
Proof.
  revert acc. induction hrefs as [|h hrefs IH]; intros acc; simpl;
    [discriminate|].
  rewrite discover_links_step_anchor.
  destruct (anchor_link env self base h) as [e'|o] eqn:Hh.
  - intros [= <-]. exists h. split; [left | done].
  - intros Hloop.
    assert (∃ acc', discover_links_loop env self base acc' hrefs = inl e)
      as [acc' Hloop'] by (destruct o; by eexists).
    destruct (IH acc' Hloop') as (href & Hin & Hl).
    exists href. split; [by right | done].
Qed.

(** The links found are those of the anchors that are kept. *)
Lemma elem_of_discover_links (page base : string) (links : gset string) :
  discover_links env self page base = inr links →
  ∃ hrefs,
    env_anchor_hrefs env page = inr hrefs
    ∧ (∀ href, href ∈ hrefs → ∃ o, anchor_link env self base href = inr o)
    ∧ ∀ x, x ∈ links
           ↔ ∃ href, href ∈ hrefs
                     ∧ anchor_link env self base href = inr (Some x).
Proof.
  unfold discover_links.
  destruct (env_anchor_hrefs env page) as [e|hrefs]; [discriminate|].
  intros Hloop. exists hrefs. split; [done|].
  destruct (discover_links_loop_inr base hrefs ∅ links Hloop)
    as [Hall Hmem].
  split; [done|]. intros x. rewrite Hmem. split.
  - intros [H | H]; [by apply not_elem_of_empty in H | done].
  - by right.
Qed.

(** An anchor that is kept has none of the three prefixes, and its link
    passes [same_domain]. *)
Lemma anchor_link_kept (base href x : string) :
  anchor_link env self base href = inr (Some x) →
  Str.startswith href "mailto:" = false
  ∧ Str.startswith href "tel:" = false
  ∧ ∃ absolute,
      env_urljoin env base (Str.strip href) = inr absolute
      ∧ Str.startswith absolute "javascript:" = false
      ∧ same_domain env self (Str.split_head "#" absolute) = true
      ∧ x = Str.split_head "#" absolute.
Proof.
  unfold anchor_link. intros Hl.
  assert (Str.startswith (Str.strip href) "mailto:" = false
          ∧ Str.startswith (Str.strip href) "tel:" = false) as [Hm Ht].
  { destruct (Str.startswith (Str.strip href) "mailto:");
      [discriminate|].
    by destruct (Str.startswith (Str.strip href) "tel:"). }
  rewrite Hm, Ht in Hl. cbn [orb] in Hl.
  split.
  { destruct (Str.startswith href "mailto:") eqn:H; [|done].
    apply strip_keeps_mailto in H. congruence. }
  split.
  { destruct (Str.startswith href "tel:") eqn:H; [|done].
    apply strip_keeps_tel in H. congruence. }
  destruct (env_urljoin env base (Str.strip href)) as [e|absolute];
    [discriminate|].
  exists absolute.
  destruct (Str.startswith absolute "javascript:"); [discriminate|].
  destruct (same_domain env self (Str.split_head "#" absolute));
    [|discriminate].
  cbn [orb negb] in Hl. by injection Hl as <-.
Qed.

End DiscoverLinks.

(** C7. Every link of the set that [discover_links] returns passes
    [same_domain] and has no [#] in it, and it comes from an anchor whose
    [href] starts with neither [mailto:] nor [tel:] and does not resolve to
    a [javascript:] URL.  The result is a set: a page whose anchors carry
    the same [href] values, however often and in whatever order, gives the
    same links. *)
Theorem discover_links_sound (env : Env) (self : SiteTester)
    (page base : string) (links : gset string) :
  discover_links env self page base = inr links →
  (∀ x, x ∈ links →
     same_domain env self x = true
     ∧ Str.has_char "#" x = false
     ∧ ∃ hrefs href absolute,
         env_anchor_hrefs env page = inr hrefs
         ∧ href ∈ hrefs
         ∧ Str.startswith href "mailto:" = false
         ∧ Str.startswith href "tel:" = false
         ∧ env_urljoin env base (Str.strip href) = inr absolute
         ∧ Str.startswith absolute "javascript:" = false
         ∧ x = Str.split_head "#" absolute)
  ∧ (∀ page' hrefs hrefs',
       env_anchor_hrefs env page = inr hrefs →
       env_anchor_hrefs env page' = inr hrefs' →
       (∀ href, href ∈ hrefs' ↔ href ∈ hrefs) →
       discover_links env self page' base = inr links).
Proof.
  intros Hd.
  destruct (elem_of_discover_links env self page base links Hd)
    as (hrefs & Hhrefs & Hall & Hmem).
  split.
  - intros x Hx. apply Hmem in Hx as (href & Hin & Hl).
    destruct (anchor_link_kept env self base href x Hl)
      as (Hm & Ht & absolute & Hj & Hjs & Hsd & ->).
    split; [done|]. split; [apply split_head_no_sep|].
    by exists hrefs, href, absolute.
  - intros page' hrefs0 hrefs' Hp Hp' Hsame.
    rewrite Hhrefs in Hp. injection Hp as <-.
    destruct (discover_links env self page' base) as [e|links'] eqn:Hd'.
    + unfold discover_links in Hd'. rewrite Hp' in Hd'.
      apply discover_links_loop_inl in Hd' as (href & Hin & Hl).
      apply Hsame in Hin. destruct (Hall href Hin) as [o Ho]. congruence.
    + f_equal. apply set_eq. intros x.
      destruct (elem_of_discover_links env self page' base links' Hd')
        as (hrefs2 & Hhrefs2 & _ & Hmem').
      rewrite Hp' in Hhrefs2. injection Hhrefs2 as <-.
      rewrite Hmem, Hmem'.
      split; intros (href & Hin & Hl); exists href; split; try done;
        by apply Hsame.
Qed.

Lemma five_anchors_links :
  discover_links five_anchors_env sample_self "<html>" "http://example.com"
  = inr {[ "http://example.com/a" ]}.
Proof. vm_compute. reflexivity. Qed.

Lemma discover_links_sound_witness :
  same_domain five_anchors_env sample_self "http://example.com/a" = true
  ∧ Str.has_char "#" "http://example.com/a" = false
  ∧ ∃ hrefs href absolute,
      env_anchor_hrefs five_anchors_env "<html>" = inr hrefs
      ∧ href ∈ hrefs
      ∧ Str.startswith href "mailto:" = false
      ∧ Str.startswith href "tel:" = false
      ∧ env_urljoin five_anchors_env "http://example.com" (Str.strip href)
        = inr absolute
      ∧ Str.startswith absolute "javascript:" = false
      ∧ "http://example.com/a" = Str.split_head "#" absolute.
Proof.
  apply (proj1 (discover_links_sound five_anchors_env sample_self "<html>"
                  "http://example.com" _ five_anchors_links)
           "http://example.com/a").
  by apply elem_of_singleton.
Defined.

(** ** [check_internal_links] *)

Section CheckInternalLinks.
Variable env : Env.

Lemma probe_link_run (link : string) (s : St) :
  let ev := EvHead link 8 (env_head env (st_log s) link 8) in
  probe_link env link s = (inr (broken_of ev), grow s [ev] []).
Proof.
  unfold probe_link, try_except, bind. rewrite call_run.
  destruct (env_head env (st_log s) link 8) as [e|code]; simpl; [done|].
  by destruct (400 <=? code)%Z.
Qed.

(** The loop probes the links in order until twenty are checked, and
    never raises. *)
Lemma links_loop_run (links : list string) (checked : nat)
    (broken : list (string * (Z + string))) (s : St) :
  ∃ evs,
    links_loop env links checked broken s
    = (inr (broken ++ concat (map broken_of evs)), grow s evs [])
    ∧ Forall2 (λ ev link, ∃ r, ev = EvHead link 8 r) evs
              (take (20 - checked) links).
Proof.
  revert checked broken s.
  induction links as [|link rest IH]; intros checked broken s;
    cbn [links_loop].
  - exists []. cbn [map concat]. rewrite app_nil_r, grow_nil, take_nil.
    split; [reflexivity | constructor].
  - destruct (20 <=? checked) eqn:Hc.
    + apply Nat.leb_le in Hc. exists []. cbn [map concat].
      rewrite app_nil_r, grow_nil.
      replace (20 - checked) with 0 by lia.
      split; [reflexivity | constructor].
    + apply Nat.leb_gt in Hc. unfold bind. rewrite probe_link_run.
      destruct (IH (S checked)
                  (broken ++ broken_of
                     (EvHead link 8 (env_head env (st_log s) link 8)))
                  (grow s [EvHead link 8 (env_head env (st_log s) link 8)]
                        [])) as (evs & Hrun & Hall).
      exists (EvHead link 8 (env_head env (st_log s) link 8) :: evs).
      rewrite Hrun, grow_grow. cbn [map concat app].
      rewrite <- app_assoc. split; [done|].
      replace (20 - checked) with (S (20 - S checked)) by lia.
      cbn [take]. constructor; [by eexists | done].
Qed.

End CheckInternalLinks.

Lemma probes_are_heads (evs : list Event) (links : list string) :
  Forall2 (λ ev link, ∃ r, ev = EvHead link 8 r) evs links →
  ∀ ev, ev ∈ evs → ∃ link r, ev = EvHead link 8 r.
Proof.
  induction 1 as [|ev link evs links [r ->] _ IH]; intros ev' Hin.
  - by apply elem_of_nil in Hin.
  - apply elem_of_cons in Hin as [-> | Hin]; [by eexists _, _ | by apply IH].
Qed.

Lemma concat_broken_nonempty (evs : list Event) :
  concat (map broken_of evs) ≠ []
  ↔ ∃ ev, ev ∈ evs ∧ broken_of ev ≠ [].
Proof.
  induction evs as [|ev evs IH]; simpl.
  - split; [done | intros (ev & Hin & _); by apply elem_of_nil in Hin].
  - split.
    + intros H. destruct (broken_of ev) as [|x l] eqn:Hev.
      * simpl in H. apply IH in H as (ev' & Hin & Hne).
        exists ev'. split; [by right | done].
      * exists ev. split; [left | by rewrite Hev].
    + intros (ev' & Hin & Hne) Hnil. apply app_eq_nil in Hnil as [H1 H2].
      apply elem_of_cons in Hin as [-> | Hin]; [done|].
      apply (proj2 IH); [by exists ev' | done].
Qed.

Lemma anchor_link_inl (env : Env) (self : SiteTester) (base href : string)
    (e : exn) :
  anchor_link env self base href = inl e →
  env_urljoin env base (Str.strip href) = inl e.
Proof.
  unfold anchor_link.
  destruct (Str.startswith (Str.strip href) "mailto:"
            || Str.startswith (Str.strip href) "tel:"); [discriminate|].
  destruct (env_urljoin env base (Str.strip href)) as [e'|absolute];
    [congruence|].
  by destruct (Str.startswith absolute "javascript:"
               || negb (same_domain env self
                          (Str.split_head "#" absolute))).
Qed.

(** What [discover_links] raises, the body of the check raises, with the
    page as it was. *)
Lemma check_internal_links_body_raises (env : Env) (self : SiteTester)
    (page base : string) (s : St) (e : exn) :
  discover_links env self page base = inl e →
  check_internal_links_body env self page base s = (inl e, s).
Proof.
  intros Hd. unfold check_internal_links_body, bind, of_result.
  by rewrite Hd.
Qed.

(** C2, where the code departs from it.  One anchor of the page on which
    [urljoin] raises, wherever it stands among the anchors, makes the
    broken-link check raise to its caller: no link is probed and no
    [broken_links] record is appended.  ([urljoin] raises [ValueError], not
    staleness.) *)
Theorem check_internal_links_raises (env : Env) (handled : option exn)
    (self : SiteTester) (page base : string) (s : St)
    (hrefs : list string) (href : string) (e : exn) :
  (∀ h m, env_urljoin env base h ≠ inl (StaleElementReferenceException m)) →
  env_anchor_hrefs env page = inr hrefs →
  href ∈ hrefs →
  Str.startswith (Str.strip href) "mailto:" = false →
  Str.startswith (Str.strip href) "tel:" = false →
  env_urljoin env base (Str.strip href) = inl e →
  ∃ e', check_internal_links env handled self page base s = (inl e', s).
Proof.
  intros Hns Hhrefs Hin Hm Ht He.
  assert (anchor_link env self base href = inl e) as Hl.
  { unfold anchor_link. by rewrite Hm, Ht, He. }
  destruct (discover_links env self page base) as [e'|links] eqn:Hd.
  - exists e'. unfold check_internal_links.
    apply retry_on_stale_other_exception;
      [by apply check_internal_links_body_raises|].
    intros m ->. unfold discover_links in Hd. rewrite Hhrefs in Hd.
    apply discover_links_loop_inl in Hd as (h & _ & Hh).
    apply anchor_link_inl in Hh. by apply Hns in Hh.
  - apply elem_of_discover_links in Hd as (hrefs' & Hh' & Hall & _).
    rewrite Hhrefs in Hh'. injection Hh' as <-.
    destruct (Hall href Hin) as [o Ho]. congruence.
Qed.

Lemma check_internal_links_raises_witness :
  ∃ e', check_internal_links bracket_env None sample_self "<html>"
          "http://example.com" (start "http://example.com")
        = (inl e', start "http://example.com").
Proof.
  apply (check_internal_links_raises bracket_env None sample_self "<html>"
           "http://example.com" (start "http://example.com")
           ["http://["; "http://example.com/ok"] "http://["
           (OtherException "Invalid IPv6 URL")).
  - intros h m. unfold bracket_env, with_hrefs, quiet_env, sample_env,
      sample_urljoin. simpl. by case_bool_decide.
  - reflexivity.
  - left.
  - reflexivity.
  - reflexivity.
  - reflexivity.
Defined.

(** The run on that page: the exception of [urljoin], and no record. *)
Example check_internal_links_bracket :
  check_internal_links bracket_env None sample_self "<html>"
    "http://example.com" (start "http://example.com")
  = (inl (OtherException "Invalid IPv6 URL"), start "http://example.com").
Proof. vm_compute. reflexivity. Qed.

(** What holds of C2: on a page where [discover_links] returns, the check
    probes the first twenty links of the set found, in the order of
    iteration, and no other; it does not raise and appends one record,
    named [broken_links].  The record is failed exactly when a probe raised
    or obtained a status code of 400 or more; its message then starts with
    the number of such probes and shows the first three of them.  Otherwise
    it is the passing record. *)
Lemma check_internal_links_outcome (env : Env) (handled : option exn)
    (self : SiteTester) (page base : string) (s : St)
    (links : gset string) :
  iter_ok env →
  discover_links env self page base = inr links →
  let probed := take 20 (env_iter env links) in
  ∃ evs record,
    check_internal_links env handled self page base s
    = (inr tt, grow s evs [record])
    ∧ Forall2 (λ ev link, ∃ r, ev = EvHead link 8 r) evs probed
    ∧ length evs ≤ 20
    ∧ NoDup probed
    ∧ (∀ link, link ∈ probed → link ∈ links)
    ∧ name record = "broken_links"
    ∧ (passed record = false
       ↔ ∃ link r, EvHead link 8 r ∈ evs
           ∧ match r with
             | inl _ => True
             | inr code => (400 ≤ code)%Z
             end)
    ∧ (passed record = false →
       message record
       = pretty (length (concat (map broken_of evs)))
         +:+ " broken or problematic links (sample: "
         +:+ env_repr env (take 3 (concat (map broken_of evs))) +:+ ")")
    ∧ (passed record = true →
       record = mkTest "broken_links" true
                       "No broken links found (checked up to 20)").
Proof.
  intros Hiter Hd probed.
  destruct (links_loop_run env (env_iter env links) 0 [] s)
    as (evs & Hrun & Hall).
  simpl in Hrun. rewrite Nat.sub_0_r in Hall. fold probed in Hall.
  assert (Hbroken : concat (map broken_of evs) ≠ []
                    ↔ ∃ link r, EvHead link 8 r ∈ evs
                        ∧ match r with
                          | inl _ => True
                          | inr code => (400 ≤ code)%Z
                          end).
  { rewrite concat_broken_nonempty. split.
    - intros (ev & Hin & Hne).
      destruct (probes_are_heads _ _ Hall ev Hin) as (link & r & ->).
      exists link, r. split; [done|]. destruct r as [e|code]; [done|].
      simpl in Hne. destruct (400 <=? code)%Z eqn:Hc; [|done].
      by apply Z.leb_le.
    - intros (link & r & Hin & Hr). exists (EvHead link 8 r).
      split; [done|]. destruct r as [e|code]; simpl; [done|].
      by rewrite (proj2 (Z.leb_le _ _) Hr). }
  assert (Hperm : NoDup (env_iter env links)).
  { rewrite (Hiter links). apply NoDup_elements. }
  assert (Hbody : ∃ record,
    check_internal_links_body env self page base s
    = (inr tt, grow s evs [record])
    ∧ name record = "broken_links"
    ∧ (passed record = false ↔ concat (map broken_of evs) ≠ [])
    ∧ (passed record = false →
       message record
       = pretty (length (concat (map broken_of evs)))
         +:+ " broken or problematic links (sample: "
         +:+ env_repr env (take 3 (concat (map broken_of evs))) +:+ ")")
    ∧ (passed record = true →
       record = mkTest "broken_links" true
                       "No broken links found (checked up to 20)")).
  { unfold check_internal_links_body, bind, of_result. rewrite Hd, Hrun.
    destruct (concat (map broken_of evs)) as [|x l] eqn:Hb;
      rewrite add_run, grow_grow, app_nil_r; eexists;
      (split; [reflexivity|]); simpl; repeat split; done. }
  destruct Hbody as (record & Hbody & Hname & Hpassed & Hmsg & Hpass).
  exists evs, record. split.
  { unfold check_internal_links.
    by apply retry_on_stale_first_attempt. }
  split; [done|]. split.
  { rewrite (Forall2_length _ _ _ Hall). unfold probed.
    rewrite length_take. lia. }
  split; [exact (sublist_NoDup _ _ Hperm (sublist_take _ _))|]. split.
  { intros link Hin. apply subseteq_take in Hin.
    rewrite (Hiter links) in Hin. by apply elem_of_elements in Hin. }
  split; [done|]. split; [by rewrite Hpassed, Hbroken|]. by split.
Qed.

Lemma iter_ok_elements (env : Env) :
  env_iter env = elements → iter_ok env.
Proof. intros H links. by rewrite H. Qed.

Example check_internal_links_missing_page :
  ∃ evs record,
    check_internal_links missing_page_env None sample_self "<html>"
      "http://example.com" (start "http://example.com")
    = (inr tt, grow (start "http://example.com") evs [record])
    ∧ length evs ≤ 20
    ∧ name record = "broken_links".
Proof.
  destruct (check_internal_links_outcome missing_page_env None sample_self
              "<html>" "http://example.com" (start "http://example.com")
              {[ "http://example.com/a" ]}
              (iter_ok_elements missing_page_env eq_refl) five_anchors_links)
    as (evs & record & Hrun & _ & Hlen & _ & _ & Hname & _).
  exists evs, record. exact (conj Hrun (conj Hlen Hname)).
Qed.

(** Scenario C of the specification: the link found on the page answers
    404, and the record of the page is failed. *)
Example check_internal_links_404 :
  (check_internal_links missing_page_env None sample_self "<html>"
     "http://example.com" (start "http://example.com")).2
  = grow (start "http://example.com")
      [EvHead "http://example.com/a" 8 (inr 404%Z)]
      [mkTest "broken_links" false
         "1 broken or problematic links (sample: [...])"].
Proof. vm_compute. reflexivity. Qed.

(** ** [safe_click_buttons]: the rounds of a run *)

Section ClickLoop.
Variable env : Env.

Lemma derived_text_run (b : Element) (s : St) :
  ∃ res reads,
    derived_text env b s = (res, grow s reads [])
    ∧ Forall (is_read_of b) reads.
Proof.
  unfold derived_text, bind. rewrite call_run.
  destruct (env_text env (st_log s) b) as [e|t] eqn:Ht.
  - eexists _, _. split; [reflexivity|]. by repeat constructor.
  - case_bool_decide as Hempty.
    + rewrite call_run.
      destruct (env_get_attribute env _ b "aria-label") as [e|[label|]];
        rewrite ?grow_grow; eexists _, _; (split; [reflexivity|]);
        by repeat constructor.
    + eexists _, _. split; [reflexivity|]. by repeat constructor.
Qed.

Lemma click_round_run (b : Element) (text : string) (clicked : nat)
    (s : St) :
  ∃ o, o ≠ Skipped
    ∧ click_round env b text clicked s
      = (inr (outcome_clicked clicked o),
         grow s (outcome_events b o) (outcome_tests clicked text o)).
Proof.
  unfold click_round, try_except, bind. rewrite call_unit_run.
  destruct (env_click env (st_log s) b) as [e|] eqn:Hc.
  - exists (ClickFailed e). split; [done|].
    by rewrite add_run, grow_grow.
  - rewrite sleep_run, add_run, call_unit_run, !grow_grow.
    destruct (env_back env _) as [e|] eqn:Hb.
    + exists (BackFailed e). split; [done|].
      by rewrite add_run, !grow_grow.
    + exists Clicked. split; [done|]. by rewrite sleep_run, !grow_grow.
Qed.

(** The loop goes through the buttons in rounds, until it has counted
    three clicks, it runs out of buttons, or a text cannot be read. *)
Lemma click_loop_rounds (buttons : list Element) (clicked : nat) (s : St) :
  ∃ rounds tail res,
    click_loop env buttons clicked s
    = (res, grow s (rounds_events rounds ++ tail)
                 (rounds_tests clicked rounds))
    ∧ Forall (round_ok env) rounds
    ∧ rounds_below clicked rounds
    ∧ map r_elem rounds `prefix_of` buttons
    ∧ (res = inr (rounds_clicked clicked rounds) ∧ tail = []
       ∨ ∃ e b, res = inl e ∧ Forall (is_read_of b) tail).
Proof.
  revert clicked s.
  induction buttons as [|b rest IH]; intros clicked s; cbn [click_loop].
  - exists [], [], (inr clicked). simpl. rewrite grow_nil.
    repeat split; try done. by left.
  - destruct (3 <=? clicked) eqn:Hcap.
    { exists [], [], (inr clicked). simpl. rewrite grow_nil.
      repeat split; try done; [apply prefix_nil | by left]. }
    apply Nat.leb_gt in Hcap. unfold bind at 1.
    destruct (derived_text_run b s) as (rt & reads & Hdt & Hreads).
    rewrite Hdt. destruct rt as [e|text].
    { exists [], reads, (inl e). simpl.
      repeat split; try done; [apply prefix_nil | right; by exists e, b]. }
    destruct (is_safe_text text) eqn:Hsafe; cbn [negb].
    + unfold bind at 1.
      destruct (click_round_run b text clicked (grow s reads []))
        as (o & Ho & Hcr).
      rewrite Hcr.
      destruct (IH (outcome_clicked clicked o)
                  (grow (grow s reads []) (outcome_events b o)
                        (outcome_tests clicked text o)))
        as (rounds & tail & res & Hrun & Hok & Hbelow & Hpre & Hres).
      exists (mkRound b reads text o :: rounds), tail, res.
      rewrite Hrun, !grow_grow.
      cbn [rounds_events rounds_tests rounds_clicked rounds_below map].
      unfold round_events. cbn [r_elem r_reads r_text r_outcome app].
      rewrite <- ?app_assoc. repeat split; try done.
      * constructor; [|done]. repeat split; cbn; try done.
        -- by exists s.
        -- by rewrite Hsafe.
      * by apply prefix_cons.
    + destruct (IH clicked (grow s reads []))
        as (rounds & tail & res & Hrun & Hok & Hbelow & Hpre & Hres).
      exists (mkRound b reads text Skipped :: rounds), tail, res.
      rewrite Hrun, !grow_grow.
      cbn [rounds_events rounds_tests rounds_clicked rounds_below map].
      unfold round_events.
      cbn [r_elem r_reads r_text r_outcome outcome_events outcome_tests
           outcome_clicked app].
      rewrite ?app_nil_r, <- ?app_assoc. repeat split; try done.
      * constructor; [|done]. repeat split; cbn; try done.
        by exists s.
      * by apply prefix_cons.
Qed.

Lemma find_elements_or_empty_run (tag : string) (s : St) :
  ∃ found buttons,
    find_elements_or_empty env tag s
    = (inr buttons, grow s [EvFind tag found] []).
Proof.
  unfold find_elements_or_empty, try_except. rewrite call_run.
  destruct (env_find_elements env (st_log s) tag) as [e|l];
    by eexists _, _.
Qed.

(** A run of the body: the buttons are looked up, the rounds follow, and
    the summary closes the run when it returns without a click counted. *)
Lemma safe_click_buttons_body_run (s : St) :
  ∃ found rounds tail res summary,
    safe_click_buttons_body env s
    = (res, grow s (EvFind "button" found :: rounds_events rounds ++ tail)
                 (rounds_tests 0 rounds ++ summary))
    ∧ Forall (round_ok env) rounds
    ∧ rounds_below 0 rounds
    ∧ (res = inr tt ∧ tail = []
       ∧ summary = (if rounds_clicked 0 rounds =? 0 then [summary_test]
                    else [])
       ∨ (∃ e b, res = inl e ∧ Forall (is_read_of b) tail)
         ∧ summary = []).
Proof.
  unfold safe_click_buttons_body, bind.
  destruct (find_elements_or_empty_run "button" s)
    as (found & buttons & Hfind).
  rewrite Hfind.
  destruct (click_loop_rounds buttons 0 (grow s [EvFind "button" found] []))
    as (rounds & tail & res & Hrun & Hok & Hbelow & _ & Hres).
  rewrite Hrun, grow_grow.
  destruct Hres as [[-> ->] | (e & b & -> & Htail)].
  - exists found, rounds, [], (inr tt).
    destruct (rounds_clicked 0 rounds =? 0) eqn:Hz.
    + exists [summary_test]. rewrite add_run, grow_grow, !app_nil_r.
      repeat split; try done. by left.
    + exists []. unfold ret. rewrite !app_nil_r.
      repeat split; try done. by left.
  - exists found, rounds, tail, (inl e), []. rewrite app_nil_r.
    repeat split; try done. right. split; [by exists e, b | done].
Qed.

End ClickLoop.

(** ** [safe_click_buttons] and the blacklist *)

Section Blacklist.
Variable env : Env.
Variable b : Element.
Hypothesis b_blacklisted :
  ∀ s t, (derived_text env b s).1 = inr t → blacklisted t.

Lemma read_not_click (b' : Element) (reads : list Event) (r : option exn) :
  Forall (is_read_of b') reads → EvClick b r ∉ reads.
Proof.
  intros Hall Hin. rewrite Forall_forall in Hall.
  exact (Hall _ Hin).
Qed.

Lemma round_no_click_of (x : Round) (r : option exn) :
  round_ok env x → EvClick b r ∉ round_events x.
Proof.
  intros ((s & Hdt) & Hreads & Hsafe) Hin. unfold round_events in Hin.
  apply elem_of_app in Hin as [Hin | Hin].
  - by apply (read_not_click _ _ _ Hreads) in Hin.
  - assert (r_elem x = b) as Hb.
    { destruct (r_outcome x); simpl in Hin;
        repeat (apply elem_of_cons in Hin as [Hin | Hin];
                [by (injection Hin as -> ->; done) || discriminate|]);
        by apply elem_of_nil in Hin. }
    assert (r_outcome x = Skipped) as Ho.
    { apply Hsafe, is_safe_text_false, (b_blacklisted s).
      by rewrite <- Hb, Hdt. }
    rewrite Ho in Hin. by apply elem_of_nil in Hin.
Qed.

Lemma rounds_no_click_of (rounds : list Round) (r : option exn) :
  Forall (round_ok env) rounds → EvClick b r ∉ rounds_events rounds.
Proof.
  induction 1 as [|x rounds Hx _ IH]; simpl; [apply not_elem_of_nil|].
  intros Hin. apply elem_of_app in Hin as [Hin | Hin]; [|done].
  by apply (round_no_click_of x r).
Qed.

End Blacklist.

Lemma outcome_tests_safe (env : Env) (clicked : nat) (x : Round) :
  round_ok env x →
  Forall safe_record (outcome_tests clicked (r_text x) (r_outcome x)).
Proof.
  intros (_ & _ & Hsafe).
  assert (r_outcome x ≠ Skipped → ¬ blacklisted (r_text x)) as Hnb.
  { intros Ho Hb. by apply Ho, Hsafe, is_safe_text_false. }
  assert (∀ t, name t = click_name clicked →
               (message t = clicked_message (r_text x)
                ∨ ∃ e, message t = could_not_click_message (r_text x) e) →
               r_outcome x ≠ Skipped → safe_record t) as Hrec.
  { intros t Hn Hm Ho. right. exists clicked, (r_text x). auto. }
  destruct (r_outcome x) as [| |e|e]; simpl.
  - constructor.
  - constructor; [apply Hrec; simpl; eauto | constructor].
  - constructor; [apply Hrec; simpl; eauto | constructor].
  - constructor; [apply Hrec; simpl; eauto|].
    constructor; [apply Hrec; simpl; eauto | constructor].
Qed.

Lemma rounds_tests_safe (env : Env) (clicked : nat) (rounds : list Round) :
  Forall (round_ok env) rounds →
  Forall safe_record (rounds_tests clicked rounds).
Proof.
  intros H. revert clicked.
  induction H as [|x rounds Hx _ IH]; intros clicked; simpl; [done|].
  apply Forall_app. split; [by eapply outcome_tests_safe | apply IH].
Qed.

(** C3. A button whose text, whenever it is read, has an entry of the
    blacklist in it, the case of letters ignored, is not clicked by
    [safe_click_buttons], at any of its attempts; and every record the
    check appends is the summary or the record of a click on a button
    whose text is not blacklisted. *)
Theorem safe_click_never_clicks_blacklisted (env : Env)
    (handled : option exn) (b : Element) (s : St) :
  (∀ s' t, (derived_text env b s').1 = inr t → blacklisted t) →
  ∃ evs recs,
    (safe_click_buttons env handled s).2 = grow s evs recs
    ∧ (∀ r, EvClick b r ∉ evs)
    ∧ Forall safe_record recs.
Proof.
  intros Hb. unfold safe_click_buttons, retry_on_stale.
  apply (retry_loop_respects handled (safe_click_buttons_body env)
           (λ s1 s2, ∃ evs recs, s2 = grow s1 evs recs
                        ∧ (∀ r, EvClick b r ∉ evs)
                        ∧ Forall safe_record recs)).
  - intros s1. exists [], []. rewrite grow_nil.
    repeat split; [intros r; apply not_elem_of_nil | done].
  - intros s1 s2 s3 (e1 & r1 & -> & Hc1 & Hr1) (e2 & r2 & -> & Hc2 & Hr2).
    exists (e1 ++ e2), (r1 ++ r2). rewrite grow_grow.
    repeat split.
    + intros r Hin. apply elem_of_app in Hin as [Hin | Hin];
        [by apply (Hc1 r) | by apply (Hc2 r)].
    + by apply Forall_app.
  - intros s1.
    destruct (safe_click_buttons_body_run env s1)
      as (found & rounds & tail & res & summary & Hrun & Hok & _ & Hres).
    rewrite Hrun. eexists _, _. split; [reflexivity|]. split.
    + intros r Hin. apply elem_of_cons in Hin as [Hin | Hin]; [done|].
      apply elem_of_app in Hin as [Hin | Hin].
      * by apply (rounds_no_click_of env b Hb rounds r Hok).
      * destruct Hres as [(_ & -> & _) | [(e & b' & _ & Htail) _]].
        -- by apply elem_of_nil in Hin.
        -- by apply (read_not_click b b' tail r Htail).
    + apply Forall_app. split; [by eapply rounds_tests_safe|].
      destruct Hres as [(_ & _ & ->) | [_ ->]]; [|done].
      destruct (rounds_clicked 0 rounds =? 0); [|done].
      constructor; [by left | constructor].
  - intros s1. exists [EvSleep 1], []. repeat split; [|done].
    intros r Hin. apply elem_of_cons in Hin as [Hin | Hin]; [done|].
    by apply elem_of_nil in Hin.
Qed.

Lemma logout_env_blacklisted (s : St) (t : string) :
  (derived_text logout_env 0 s).1 = inr t → blacklisted t.
Proof.
  unfold derived_text, bind. rewrite call_run. simpl.
  intros [= <-]. by apply is_safe_text_false.
Qed.

Lemma safe_click_never_clicks_blacklisted_witness :
  ∃ evs recs,
    (safe_click_buttons logout_env None (start "http://example.com")).2
    = grow (start "http://example.com") evs recs
    ∧ (∀ r, EvClick 0 r ∉ evs)
    ∧ Forall safe_record recs.
Proof.
  exact (safe_click_never_clicks_blacklisted logout_env None 0
           (start "http://example.com") logout_env_blacklisted).
Defined.

(** The button labelled Logout Now of the specification: [logout] occurs
    in its text, it is read and passed over, and the other button is
    clicked. *)
Example safe_click_buttons_logout_now :
  is_safe_text "Logout Now" = false
  ∧ safe_click_buttons logout_env None (start "http://example.com")
    = (inr tt,
       grow (start "http://example.com")
         [EvFind "button" (inr [0; 1]);
          EvText 0 (inr "Logout Now");
          EvText 1 (inr "Next");
          EvClick 1 None; EvSleep 1; EvBack None; EvSleep 1]
         [mkTest "button_click_0" true (clicked_message "Next")]).
Proof. split; vm_compute; reflexivity. Qed.

(** ** Buttons without text *)

Lemma outcome_events_click (b : Element) (o : Outcome) :
  o ≠ Skipped → ∃ r evs, outcome_events b o = EvClick b r :: evs.
Proof. destruct o; [done | | |]; intros _; by eexists _, _. Qed.

(** C10. The empty text is safe; and a button whose text is empty and
    whose [aria-label] is missing or empty is clicked, as soon as its text
    has been read, when the loop reaches it below the cap. *)
Theorem unlabeled_button_is_clicked (env : Env) (b : Element)
    (rest : list Element) (clicked : nat) (s : St) :
  clicked < 3 →
  env_text env (st_log s) b = inr EmptyString →
  env_get_attribute env (st_log s ++ [EvText b (inr EmptyString)]) b
                    "aria-label" = inr None
  ∨ env_get_attribute env (st_log s ++ [EvText b (inr EmptyString)]) b
                      "aria-label" = inr (Some EmptyString) →
  is_safe_text EmptyString = true
  ∧ (∃ reads, (derived_text env b s) = (inr EmptyString, grow s reads []))
  ∧ ∃ reads r evs recs res,
      click_loop env (b :: rest) clicked s
      = (res, grow s (reads ++ EvClick b r :: evs) recs)
      ∧ Forall (is_read_of b) reads.
Proof.
  intros Hcap Htext Hattr. split; [reflexivity|].
  assert (∃ reads, derived_text env b s = (inr EmptyString, grow s reads [])
                   ∧ Forall (is_read_of b) reads) as (reads & Hdt & Hreads).
  { unfold derived_text, bind. rewrite call_run, Htext.
    rewrite bool_decide_eq_true_2 by done. rewrite call_run, grow_log.
    destruct Hattr as [-> | ->]; rewrite grow_grow;
      eexists; (split; [reflexivity|]); by repeat constructor. }
  split; [by exists reads|].
  cbn [click_loop]. rewrite (proj2 (Nat.leb_gt 3 clicked) Hcap).
  unfold bind at 1. rewrite Hdt.
  change (negb (is_safe_text EmptyString)) with false. cbv iota.
  unfold bind at 1.
  destruct (click_round_run env b EmptyString clicked (grow s reads []))
    as (o & Ho & Hcr).
  rewrite Hcr.
  destruct (outcome_events_click b o Ho) as (r & evs & Hev).
  destruct (click_loop_rounds env rest (outcome_clicked clicked o)
              (grow (grow s reads []) (outcome_events b o)
                    (outcome_tests clicked EmptyString o)))
    as (rounds & tail & res & Hrun & _).
  rewrite Hrun, !grow_grow, Hev.
  exists reads, r, (evs ++ rounds_events rounds ++ tail). eexists _, res.
  split; [reflexivity | done].
Qed.

Lemma unlabeled_button_is_clicked_witness :
  is_safe_text EmptyString = true
  ∧ (∃ reads, derived_text unlabeled_env 0 (start "http://example.com")
              = (inr EmptyString, grow (start "http://example.com") reads []))
  ∧ ∃ reads r evs recs res,
      click_loop unlabeled_env [0] 0 (start "http://example.com")
      = (res, grow (start "http://example.com")
                (reads ++ EvClick 0 r :: evs) recs)
      ∧ Forall (is_read_of 0) reads.
Proof.
  apply (unlabeled_button_is_clicked unlabeled_env 0 [] 0
           (start "http://example.com")).
  - lia.
  - reflexivity.
  - left. reflexivity.
Defined.

(** The run on that page: the button is clicked and the record quotes an
    empty text. *)
Example safe_click_buttons_unlabeled :
  safe_click_buttons unlabeled_env None (start "http://example.com")
  = (inr tt,
     grow (start "http://example.com")
       [EvFind "button" (inr [0]);
        EvText 0 (inr EmptyString);
        EvAttr 0 "aria-label" (inr None);
        EvClick 0 None; EvSleep 1; EvBack None; EvSleep 1]
       [mkTest "button_click_0" true (clicked_message EmptyString)]).
Proof. vm_compute. reflexivity. Qed.

(** ** Counting the clicks of a run *)

Lemma count_app {A} (f : A → bool) (l1 l2 : list A) :
  count f (l1 ++ l2) = count f l1 + count f l2.
Proof. unfold count. by rewrite List.filter_app, length_app. Qed.

Lemma count_cons {A} (f : A → bool) (x : A) (l : list A) :
  count f (x :: l) = (if f x then 1 else 0) + count f l.
Proof. unfold count. simpl. by destruct (f x). Qed.

Lemma count_nil {A} (f : A → bool) : count f [] = 0.
Proof. reflexivity. Qed.

Lemma count_reads (f : Event → bool) (b : Element) (reads : list Event) :
  (∀ ev, is_read_of b ev → f ev = false) →
  Forall (is_read_of b) reads → count f reads = 0.
Proof.
  intros Hf. induction 1 as [|ev reads Hev _ IH]; [done|].
  by rewrite count_cons, (Hf ev Hev), IH.
Qed.

Lemma read_not_click_ok (b : Element) (ev : Event) :
  is_read_of b ev → is_click_ok ev = false.
Proof. by destruct ev. Qed.

Lemma read_not_click_failed (b : Element) (ev : Event) :
  is_read_of b ev → is_click_failed ev = false.
Proof. by destruct ev. Qed.

Lemma read_not_back_failed (b : Element) (ev : Event) :
  is_read_of b ev → is_back_failed ev = false.
Proof. by destruct ev. Qed.

Section Counting.
Variable env : Env.

Lemma round_counts (x : Round) :
  round_ok env x →
  count is_click_ok (round_events x)
  = match r_outcome x with Clicked | BackFailed _ => 1 | _ => 0 end
  ∧ count is_back_failed (round_events x)
    = match r_outcome x with BackFailed _ => 1 | _ => 0 end
  ∧ count is_click_failed (round_events x)
    = match r_outcome x with ClickFailed _ => 1 | _ => 0 end.
Proof.
  intros (_ & Hreads & _). unfold round_events. rewrite !count_app.
  rewrite (count_reads is_click_ok _ _ (read_not_click_ok _) Hreads).
  rewrite (count_reads is_back_failed _ _ (read_not_back_failed _) Hreads).
  rewrite (count_reads is_click_failed _ _ (read_not_click_failed _) Hreads).
  by destruct (r_outcome x).
Qed.

(** The clicks that returned are the clicks counted and the clicks whose
    way back failed. *)
Lemma rounds_counts (clicked : nat) (rounds : list Round) :
  Forall (round_ok env) rounds →
  count is_click_ok (rounds_events rounds) + clicked
  = rounds_clicked clicked rounds
    + count is_back_failed (rounds_events rounds).
Proof.
  intros H. revert clicked.
  induction H as [|x rounds Hx _ IH]; intros clicked; simpl; [done|].
  rewrite !count_app. destruct (round_counts x Hx) as (-> & -> & _).
  specialize (IH (outcome_clicked clicked (r_outcome x))).
  destruct (r_outcome x); simpl in *; lia.
Qed.

Lemma rounds_clicked_ge (clicked : nat) (rounds : list Round) :
  clicked ≤ rounds_clicked clicked rounds.
Proof.
  revert clicked. induction rounds as [|x rounds IH]; intros clicked;
    simpl; [done|].
  specialize (IH (outcome_clicked clicked (r_outcome x))).
  destruct (r_outcome x); simpl in *; lia.
Qed.

(** The count never passes the cap. *)
Lemma rounds_clicked_cap (clicked : nat) (rounds : list Round) :
  clicked ≤ 3 → rounds_below clicked rounds →
  rounds_clicked clicked rounds ≤ 3.
Proof.
  revert clicked. induction rounds as [|x rounds IH]; intros clicked Hc;
    simpl; [done|].
  intros [Hlt Hbelow]. apply IH; [|done].
  destruct (r_outcome x); simpl; lia.
Qed.

Lemma rounds_no_failure (rounds : list Round) :
  Forall (round_ok env) rounds →
  count is_back_failed (rounds_events rounds) = 0 →
  Forall (λ x, ∀ e, r_outcome x ≠ BackFailed e) rounds.
Proof.
  induction 1 as [|x rounds Hx _ IH]; simpl; [done|].
  rewrite count_app. destruct (round_counts x Hx) as (_ & -> & _).
  intros Hz. constructor; [|apply IH; lia].
  intros e He. rewrite He in Hz. lia.
Qed.

Lemma rounds_no_click_failure (rounds : list Round) :
  Forall (round_ok env) rounds →
  count is_click_failed (rounds_events rounds) = 0 →
  Forall (λ x, ∀ e, r_outcome x ≠ ClickFailed e) rounds.
Proof.
  induction 1 as [|x rounds Hx _ IH]; simpl; [done|].
  rewrite count_app. destruct (round_counts x Hx) as (_ & _ & ->).
  intros Hz. constructor; [|apply IH; lia].
  intros e He. rewrite He in Hz. lia.
Qed.

End Counting.

(** A count that each run of the body raises by one, and the pause leaves
    alone, tells the attempts: at least one, at most [n]. *)
Lemma retry_loop_attempts {A} (handled : option exn) (func : M A)
    (mu : St → nat) :
  (∀ s, mu (grow s [EvSleep 1] []) = mu s) →
  (∀ s, mu (func s).2 = mu s + 1) →
  ∀ n s, mu s + Nat.min 1 n ≤ mu (retry_loop handled n func s).2
         ∧ mu (retry_loop handled n func s).2 ≤ mu s + n.
Proof.
  intros Hsleep Hfunc n. induction n as [|n IH]; intros s.
  - simpl. unfold bare_raise. destruct handled; simpl; lia.
  - simpl. specialize (Hfunc s).
    destruct (func s) as [[e|a] s1]; simpl in *.
    + destruct e; simpl; try lia.
      unfold bind. rewrite sleep_run.
      specialize (IH (grow s1 [EvSleep 1] [])). rewrite Hsleep in IH.
      destruct n; simpl in *; lia.
    + lia.
Qed.

Lemma rounds_no_find (env : Env) (rounds : list Round) :
  Forall (round_ok env) rounds →
  count is_find_button (rounds_events rounds) = 0.
Proof.
  induction 1 as [|x rounds (_ & Hreads & _) _ IH]; simpl; [done|].
  unfold round_events. rewrite !count_app, IH.
  rewrite (count_reads is_find_button (r_elem x) (r_reads x));
    [|by intros []|done].
  by destruct (r_outcome x).
Qed.

(** ** The rounds of a run, one by one *)

Lemma grow_inj (s : St) (e1 e2 : list Event) (r1 r2 : list Test) :
  grow s e1 r1 = grow s e2 r2 → e1 = e2 ∧ r1 = r2.
Proof.
  unfold grow, append_tests. intros H. injection H as Hr He.
  split; by eapply app_inv_head.
Qed.

Section Rounds.
Variable env : Env.

Lemma click_round_exact (b : Element) (text : string) (clicked : nat)
    (s : St) :
  click_round env b text clicked s
  = (inr (outcome_clicked clicked (click_outcome env b s)),
     grow s (outcome_events b (click_outcome env b s))
       (outcome_tests clicked text (click_outcome env b s))).
Proof.
  unfold click_round, click_outcome, try_except, bind.
  rewrite call_unit_run.
  destruct (env_click env (st_log s) b) as [e|] eqn:Hc.
  - by rewrite add_run, grow_grow.
  - rewrite sleep_run, add_run, call_unit_run, !grow_grow.
    rewrite grow_log. cbn [app].
    destruct (env_back env (st_log s ++ [EvClick b None; EvSleep 1]))
      as [e|] eqn:Hb.
    + by rewrite add_run, !grow_grow.
    + by rewrite sleep_run, !grow_grow.
Qed.

Lemma click_outcome_not_skipped (b : Element) (s : St) :
  click_outcome env b s ≠ Skipped.
Proof.
  unfold click_outcome. destruct (env_click env (st_log s) b); [done|].
  by destruct (env_back env (st_log s ++ [EvClick b None; EvSleep 1])).
Qed.

Lemma rounds_from_ok (clicked : nat) (s : St) (rounds : list Round) :
  rounds_from env clicked s rounds → Forall (round_ok env) rounds.
Proof.
  revert clicked s. induction rounds as [|r rounds IH]; intros clicked s;
    [done|].
  intros (_ & Hdt & Ho & Hrest). constructor; [|by eapply IH].
  split; [by exists s|]. split.
  - destruct (derived_text_run env (r_elem r) s)
      as (res & reads & Hrun & Hreads).
    rewrite Hdt in Hrun.
    assert (grow s (r_reads r) [] = grow s reads []) as Hg by congruence.
    apply grow_inj in Hg as [-> _]. done.
  - rewrite Ho. destruct (is_safe_text (r_text r)); [|done].
    split; [done|]. intros H. by apply click_outcome_not_skipped in H.
Qed.

Lemma rounds_from_below (clicked : nat) (s : St) (rounds : list Round) :
  rounds_from env clicked s rounds → rounds_below clicked rounds.
Proof.
  revert clicked s. induction rounds as [|r rounds IH]; intros clicked s;
    [done|].
  intros (Hlt & _ & _ & Hrest). split; [done | by eapply IH].
Qed.

(** The loop, round by round: it takes the buttons in the order of the
    list, and stops when the list is at its end, when three clicks are
    counted, or when a text cannot be read. *)
Lemma click_loop_exact (buttons : list Element) (clicked : nat) (s : St) :
  ∃ rounds tail res,
    click_loop env buttons clicked s
    = (res, grow s (rounds_events rounds ++ tail)
                 (rounds_tests clicked rounds))
    ∧ rounds_from env clicked s rounds
    ∧ map r_elem rounds `prefix_of` buttons
    ∧ (res = inr (rounds_clicked clicked rounds) ∧ tail = []
       ∧ (map r_elem rounds = buttons ∨ 3 ≤ rounds_clicked clicked rounds)
       ∨ ∃ e b,
           res = inl e
           ∧ (map r_elem rounds ++ [b]) `prefix_of` buttons
           ∧ rounds_clicked clicked rounds < 3
           ∧ derived_text env b
               (grow s (rounds_events rounds) (rounds_tests clicked rounds))
             = (inl e,
                grow (grow s (rounds_events rounds)
                        (rounds_tests clicked rounds)) tail [])).
Proof.
  revert clicked s.
  induction buttons as [|b rest IH]; intros clicked s; cbn [click_loop].
  - exists [], [], (inr clicked). simpl. rewrite grow_nil.
    repeat split; try done. left. repeat split; try done. by left.
  - destruct (3 <=? clicked) eqn:Hcap.
    { apply Nat.leb_le in Hcap.
      exists [], [], (inr clicked). simpl. rewrite grow_nil.
      repeat split; try done; [apply prefix_nil|].
      left. repeat split; try done. by right. }
    apply Nat.leb_gt in Hcap. unfold bind at 1.
    destruct (derived_text_run env b s) as (rt & reads & Hdt & Hreads).
    rewrite Hdt. destruct rt as [e|text].
    { exists [], reads, (inl e). simpl.
      repeat split; try done; [apply prefix_nil|].
      right. exists e, b. rewrite grow_nil.
      repeat split; try done. by apply prefix_cons, prefix_nil. }
    set (o := if is_safe_text text
              then click_outcome env b (grow s reads []) else Skipped).
    set (r := mkRound b reads text o).
    assert (click_loop env rest (outcome_clicked clicked o)
              (grow s (round_events r) (outcome_tests clicked text o))
            = (if negb (is_safe_text text)
               then click_loop env rest clicked
               else (clicked' <- click_round env b text clicked ;;
                     click_loop env rest clicked')) (grow s reads []))
      as Hstep.
    { unfold o, r, round_events. cbn [r_elem r_reads r_outcome].
      destruct (is_safe_text text); cbn [negb].
      - unfold bind at 1. rewrite click_round_exact. by rewrite grow_grow.
      - cbn [outcome_events outcome_tests outcome_clicked].
        by rewrite app_nil_r. }
    rewrite <- Hstep.
    destruct (IH (outcome_clicked clicked o)
                (grow s (round_events r) (outcome_tests clicked text o)))
      as (rounds & tail & res & Hrun & Hfrom & Hpre & Hres).
    exists (r :: rounds), tail, res.
    rewrite Hrun, grow_grow.
    cbn [rounds_events rounds_tests rounds_clicked rounds_from map].
    cbn [r_elem r_reads r_text r_outcome].
    rewrite <- ?app_assoc. split; [done|]. split; [by repeat split|].
    split; [by apply prefix_cons|].
    destruct Hres as [(-> & -> & Hend) | (e & b' & -> & Hpre' & Hlt & Hdt')].
    + left. repeat split; try done.
      destruct Hend as [-> | Hend]; [by left | by right].
    + right. exists e, b'. repeat split; try done.
      * cbn [app]. by apply prefix_cons.
      * by rewrite grow_grow in Hdt'.
Qed.

End Rounds.

(** The button lookups of one call of [safe_click_buttons]: one for each
    run of the body. *)
Lemma safe_click_buttons_lookups (env : Env) (handled : option exn)
    (s : St) :
  count is_find_button (st_log s) + 1
  ≤ count is_find_button (st_log (safe_click_buttons env handled s).2)
  ∧ count is_find_button (st_log (safe_click_buttons env handled s).2)
    ≤ count is_find_button (st_log s) + 3.
Proof.
  unfold safe_click_buttons, retry_on_stale.
  refine (retry_loop_attempts handled (safe_click_buttons_body env)
            (λ s, count is_find_button (st_log s)) _ _ 3 s).
  - intros s1. rewrite grow_log, count_app, count_cons, count_nil.
    cbn [is_find_button]. lia.
  - intros s1.
    destruct (safe_click_buttons_body_run env s1)
      as (found & rounds & tail & res & summary & Hrun & Hok & _ & Hres).
    rewrite Hrun. cbn [snd]. rewrite grow_log, count_app, count_cons,
      count_app, (rounds_no_find env rounds Hok).
    assert (count is_find_button tail = 0) as ->.
    { destruct Hres as [(_ & -> & _) | [(e & b & _ & Htail) _]]; [done|].
      apply (count_reads is_find_button b); [by intros [] | done]. }
    change (is_find_button (EvFind "button" found)) with true.
    cbv iota. lia.
Qed.

(** C9, as the code has it.  One run of the body of [safe_click_buttons]
    looks the buttons up and takes them one at a time, in the order of the
    list found (no button when the lookup raises), in rounds.  A round
    reads the text of its button; a button whose text is not safe is
    passed over; a button whose text is safe is clicked, and a click that
    returns is followed by a pause of a second, a passing record
    [button_click_<n>] that quotes the text ([n] is the number of rounds
    completed before), the way back and a second pause; a click that
    raises leaves one failed record for that button, and the next button
    has its round.  The rounds stop only at the end of the list, when
    three rounds are completed, or when a text cannot be read, in which
    case the run raises what the read raised.  So at most three rounds are
    completed, and in a run where the way back never fails the clicks that
    returned are the rounds completed.  A run that returns with no round
    completed ends with one summary record, and no other run has one.  A
    call of [safe_click_buttons] is one run of the body unless the run
    raises staleness, and in any case between one and three runs. *)
Theorem safe_click_buttons_body_outcome (env : Env) (handled : option exn)
    (s : St) :
  let found := env_find_elements env (st_log s) "button" in
  let buttons := match found with inr l => l | inl _ => [] end in
  let s0 := grow s [EvFind "button" found] [] in
  ∃ rounds tail res summary,
    safe_click_buttons_body env s
    = (res, grow s0 (rounds_events rounds ++ tail)
                 (rounds_tests 0 rounds ++ summary))
    ∧ rounds_from env 0 s0 rounds
    ∧ map r_elem rounds `prefix_of` buttons
    ∧ rounds_clicked 0 rounds ≤ 3
    ∧ (count is_back_failed (rounds_events rounds ++ tail) = 0 →
       count is_click_ok (rounds_events rounds ++ tail)
       = rounds_clicked 0 rounds
       ∧ Forall (λ x, ∀ e, r_outcome x ≠ BackFailed e) rounds)
    ∧ (res = inr tt →
       tail = []
       ∧ (map r_elem rounds = buttons ∨ rounds_clicked 0 rounds = 3)
       ∧ summary = (if rounds_clicked 0 rounds =? 0 then [summary_test]
                    else []))
    ∧ (∀ e, res = inl e →
       summary = []
       ∧ rounds_clicked 0 rounds < 3
       ∧ ∃ b, (map r_elem rounds ++ [b]) `prefix_of` buttons
           ∧ derived_text env b
               (grow s0 (rounds_events rounds) (rounds_tests 0 rounds))
             = (inl e,
                grow (grow s0 (rounds_events rounds) (rounds_tests 0 rounds))
                     tail []))
    ∧ ((∀ m, res ≠ inl (StaleElementReferenceException m)) →
       safe_click_buttons env handled s = safe_click_buttons_body env s)
    ∧ count is_find_button (st_log s) + 1
      ≤ count is_find_button (st_log (safe_click_buttons env handled s).2)
    ∧ count is_find_button (st_log (safe_click_buttons env handled s).2)
      ≤ count is_find_button (st_log s) + 3.
Proof.
  intros found buttons s0.
  assert (find_elements_or_empty env "button" s = (inr buttons, s0))
    as Hfind.
  { unfold find_elements_or_empty, try_except. rewrite call_run.
    fold found. unfold buttons, s0. by destruct found. }
  destruct (click_loop_exact env buttons 0 s0)
    as (rounds & tail & res & Hrun & Hfrom & Hpre & Hres).
  pose proof (rounds_from_ok env 0 s0 rounds Hfrom) as Hok.
  pose proof (rounds_clicked_cap 0 rounds (Nat.le_0_l 3)
                (rounds_from_below env 0 s0 rounds Hfrom)) as Hcap.
  assert (∃ res' summary,
    safe_click_buttons_body env s
    = (res', grow s0 (rounds_events rounds ++ tail)
                  (rounds_tests 0 rounds ++ summary))
    ∧ (res' = inr tt →
       tail = []
       ∧ (map r_elem rounds = buttons ∨ rounds_clicked 0 rounds = 3)
       ∧ summary = (if rounds_clicked 0 rounds =? 0 then [summary_test]
                    else []))
    ∧ (∀ e, res' = inl e →
       summary = []
       ∧ rounds_clicked 0 rounds < 3
       ∧ ∃ b, (map r_elem rounds ++ [b]) `prefix_of` buttons
           ∧ derived_text env b
               (grow s0 (rounds_events rounds) (rounds_tests 0 rounds))
             = (inl e,
                grow (grow s0 (rounds_events rounds) (rounds_tests 0 rounds))
                     tail [])))
    as (res' & summary & Hbody & Hret & Hraise).
  { unfold safe_click_buttons_body, bind. rewrite Hfind, Hrun.
    destruct Hres as [(-> & -> & Hend) | (e & b & -> & Hb & Hlt & Hdt)].
    - destruct (rounds_clicked 0 rounds =? 0) eqn:Hz.
      + exists (inr tt), [summary_test]. rewrite add_run, grow_grow.
        rewrite !app_nil_r. split; [done|]. split; [|done].
        intros _. repeat split; try done.
        destruct Hend as [H | H]; [by left | right; lia].
      + exists (inr tt), []. unfold ret. rewrite !app_nil_r.
        split; [done|]. split; [|done].
        intros _. repeat split; try done.
        destruct Hend as [H | H]; [by left | right; lia].
    - exists (inl e), []. rewrite app_nil_r. split; [done|].
      split; [done|]. intros e' [= <-]. repeat split; try done.
      by exists b. }
  exists rounds, tail, res', summary.
  split; [done|]. split; [done|]. split; [done|]. split; [done|].
  assert (count is_click_ok tail = 0 ∧ count is_back_failed tail = 0)
    as [Htc Htb].
  { destruct Hres as [(_ & -> & _) | (e & b & _ & _ & _ & Hdt)]; [done|].
    destruct (derived_text_run env b
                (grow s0 (rounds_events rounds) (rounds_tests 0 rounds)))
      as (rt & reads & Hrun' & Hreads).
    rewrite Hdt in Hrun'.
    assert (grow (grow s0 (rounds_events rounds) (rounds_tests 0 rounds))
              tail []
            = grow (grow s0 (rounds_events rounds) (rounds_tests 0 rounds))
                reads []) as Hg by congruence.
    apply grow_inj in Hg as [-> _].
    split; eapply count_reads; eauto using read_not_click_ok,
      read_not_back_failed. }
  split.
  { rewrite !count_app, Htc, Htb, !Nat.add_0_r. intros Hz.
    split; [|by eapply rounds_no_failure].
    pose proof (rounds_counts env 0 rounds Hok). lia. }
  split; [done|]. split; [done|]. split.
  { intros Hns. unfold safe_click_buttons. rewrite Hbody.
    destruct res' as [e|[]].
    - apply retry_on_stale_other_exception; [done|].
      intros m ->. by apply (Hns m).
    - by apply retry_on_stale_first_attempt. }
  apply safe_click_buttons_lookups.
Qed.

Lemma safe_click_buttons_body_outcome_witness :
  ∃ rounds tail res summary,
    safe_click_buttons_body five_buttons_env (start "http://example.com")
    = (res, grow (grow (start "http://example.com")
                    [EvFind "button" (inr [0; 1; 2; 3; 4])] [])
              (rounds_events rounds ++ tail)
              (rounds_tests 0 rounds ++ summary))
    ∧ map r_elem rounds `prefix_of` [0; 1; 2; 3; 4]
    ∧ rounds_clicked 0 rounds ≤ 3.
Proof.
  destruct (safe_click_buttons_body_outcome five_buttons_env None
              (start "http://example.com"))
    as (rounds & tail & res & summary & Hrun & _ & Hpre & Hcap & _).
  exists rounds, tail, res, summary. exact (conj Hrun (conj Hpre Hcap)).
Defined.

(** The page with five buttons: three are clicked, the others are not
    looked at. *)
Example safe_click_buttons_five_buttons :
  let r := safe_click_buttons five_buttons_env None
             (start "http://example.com") in
  r.1 = inr tt
  ∧ List.filter is_click (st_log r.2)
    = [EvClick 0 None; EvClick 1 None; EvClick 2 None]
  ∧ name <$> tests (st_page r.2)
    = ["button_click_0"; "button_click_1"; "button_click_2"].
Proof. vm_compute. done. Qed.

(** C9 as it is stated fails.  On a page that changes under the check the
    first attempt clicks two buttons before it meets a stale one, and the
    second attempt clicks three others: five elements are clicked on the
    page, all of them eligible. *)
Lemma safe_click_buttons_clicks_five :
  let r := safe_click_buttons changing_page_env None
             (start "http://example.com") in
  r.1 = inr tt
  ∧ List.filter is_click (st_log r.2)
    = [EvClick 0 None; EvClick 1 None; EvClick 3 None; EvClick 4 None;
       EvClick 5 None]
  ∧ is_safe_text "Go" = true.
Proof. vm_compute. done. Qed.

(** In a browser that cannot go back the count stays at zero: the four
    buttons of the page are clicked in one run, and the run ends with the
    summary of a page where nothing was clicked. *)
Example safe_click_buttons_no_way_back :
  let r := safe_click_buttons_body no_way_back_env
             (start "http://example.com") in
  r.1 = inr tt
  ∧ count is_click_ok (st_log r.2) = 4
  ∧ last (tests (st_page r.2)) = Some summary_test.
Proof. vm_compute. done. Qed.

(** ** The names of the records of a page *)

Lemma click_name_inj (a b : nat) : click_name a = click_name b → a = b.
Proof.
  unfold click_name. rewrite !app_String, app_Empty.
  intros H. injection H as H. by apply (inj pretty).
Qed.

Lemma click_name_indexed (k : nat) (n : string) :
  n ∈ ["broken_links"; "forms_detected"; "button_clicks"] →
  click_name k ≠ n.
Proof.
  unfold click_name. rewrite !app_String, app_Empty.
  rewrite !elem_of_cons, elem_of_nil.
  intros [-> | [-> | [-> | []]]]; discriminate.
Qed.

Lemma count_name_grow (n : string) (s : St) (evs : list Event)
    (recs : list Test) :
  count_name n (st_page (grow s evs recs))
  = count_name n (st_page s) + length (filter (λ t, name t = n) recs).
Proof. unfold count_name. simpl. by rewrite filter_app, length_app. Qed.

Lemma filter_name_none (n : string) (recs : list Test) :
  Forall (λ t, name t ≠ n) recs → filter (λ t, name t = n) recs = [].
Proof.
  induction 1 as [|t recs Ht _ IH]; [done|].
  by rewrite filter_cons_False.
Qed.

Lemma rounds_tests_indexed (clicked : nat) (rounds : list Round) :
  Forall (λ t, ∃ k, name t = click_name k) (rounds_tests clicked rounds).
Proof.
  revert clicked. induction rounds as [|x rounds IH]; intros clicked;
    simpl; [done|].
  apply Forall_app. split; [|apply IH].
  destruct (r_outcome x); simpl; repeat apply Forall_cons_2;
    try apply Forall_nil_2; by exists clicked.
Qed.

Lemma rounds_tests_no_plain (n : string) (clicked : nat)
    (rounds : list Round) :
  n ∈ ["broken_links"; "forms_detected"; "button_clicks"] →
  filter (λ t, name t = n) (rounds_tests clicked rounds) = [].
Proof.
  intros Hn. apply filter_name_none.
  eapply Forall_impl; [apply rounds_tests_indexed|].
  intros t [k ->]. by apply click_name_indexed.
Qed.

(** Without a failure, the records of the rounds are passing records
    numbered from the count at the start. *)
Lemma rounds_tests_names (clicked : nat) (rounds : list Round) :
  Forall (λ x, ∀ e, r_outcome x ≠ ClickFailed e) rounds →
  Forall (λ x, ∀ e, r_outcome x ≠ BackFailed e) rounds →
  name <$> rounds_tests clicked rounds
  = click_name <$> seq clicked (rounds_clicked clicked rounds - clicked).
Proof.
  intros Hc Hb. revert clicked.
  induction rounds as [|x rounds IH]; intros clicked; simpl.
  - by rewrite Nat.sub_diag.
  - apply Forall_cons in Hc as [Hcx Hc]. apply Forall_cons in Hb as [Hbx Hb].
    rewrite fmap_app, (IH Hc Hb).
    pose proof (rounds_clicked_ge (outcome_clicked clicked (r_outcome x))
                  rounds) as Hge.
    destruct (r_outcome x) as [| |e|e]; simpl in *.
    + done.
    + replace (rounds_clicked (S clicked) rounds - clicked)
        with (S (rounds_clicked (S clicked) rounds - S clicked)) by lia.
      done.
    + by destruct (Hcx e).
    + by destruct (Hbx e).
Qed.

Section PageChecks.
Variable env : Env.
Variable handled : option exn.

(** One run of the body of [check_internal_links] either raises what the
    discovery of the links raised, with nothing appended, or returns with
    one record named [broken_links] appended. *)
Lemma check_internal_links_body_cases (self : SiteTester)
    (page base : string) (s : St) :
  (∃ e, check_internal_links_body env self page base s = (inl e, s))
  ∨ ∃ evs record,
      check_internal_links_body env self page base s
      = (inr tt, grow s evs [record])
      ∧ name record = "broken_links".
Proof.
  destruct (discover_links env self page base) as [e|links] eqn:Hd.
  - left. exists e. by apply check_internal_links_body_raises.
  - right.
    destruct (links_loop_run env (env_iter env links) 0 [] s)
      as (evs & Hrun & _).
    exists evs.
    unfold check_internal_links_body, bind, of_result. rewrite Hd, Hrun.
    cbn [app].
    destruct (concat (map broken_of evs)) as [|x l];
      rewrite add_run, grow_grow, app_nil_r; by eexists.
Qed.

Lemma count_name_one (n m : string) (r : Test) :
  name r = m →
  length (filter (λ t, name t = n) [r]) = if decide (n = m) then 1 else 0.
Proof.
  intros <-. destruct (decide (n = name r)) as [-> | Hne].
  - by rewrite filter_cons_True.
  - by rewrite filter_cons_False.
Qed.

Lemma check_internal_links_plain (self : SiteTester) (page base : string)
    (s : St) :
  count_name "broken_links"
    (st_page (check_internal_links env handled self page base s).2)
  ≤ count_name "broken_links" (st_page s) + 1.
Proof.
  unfold check_internal_links, retry_on_stale.
  apply (retry_loop_measure handled
           (check_internal_links_body env self page base)
           (λ s, count_name "broken_links" (st_page s))).
  - intros s1. rewrite count_name_grow. simpl. lia.
  - intros s1.
    destruct (check_internal_links_body_cases self page base s1)
      as [[e ->] | (evs & record & -> & Hn)]; [done|].
    rewrite count_name_grow, (count_name_one _ _ _ Hn). simpl. lia.
Qed.

Lemma check_internal_links_other (n : string) (self : SiteTester)
    (page base : string) (s : St) :
  n ≠ "broken_links" →
  count_name n
    (st_page (check_internal_links env handled self page base s).2)
  = count_name n (st_page s).
Proof.
  intros Hne. unfold check_internal_links, retry_on_stale.
  apply (retry_loop_measure_0 handled
           (check_internal_links_body env self page base)
           (λ s, count_name n (st_page s))).
  - intros s1. rewrite count_name_grow. simpl. lia.
  - intros s1.
    destruct (check_internal_links_body_cases self page base s1)
      as [[e ->] | (evs & record & -> & Hn)]; [done|].
    cbn [snd]. rewrite count_name_grow, (count_name_one _ _ _ Hn).
    destruct (decide (n = "broken_links")); [done | lia].
Qed.

Lemma fill_and_submit_forms_run (s : St) :
  ∃ found record,
    fill_and_submit_forms env handled s
    = (inr tt, grow s [EvFind "form" found] [record])
    ∧ name record = "forms_detected".
Proof.
  destruct (find_elements_or_empty_run env "form" s)
    as (found & forms & Hfind).
  assert (∃ record, fill_and_submit_forms_body env s
                    = (inr tt, grow s [EvFind "form" found] [record])
                    ∧ name record = "forms_detected") as (record & Hb & Hn).
  { unfold fill_and_submit_forms_body, bind. rewrite Hfind.
    destruct forms; rewrite add_run, grow_grow; by eexists. }
  exists found, record. split; [|done].
  by apply retry_on_stale_first_attempt.
Qed.

(** A run of the body of [safe_click_buttons] appends at most one record
    named [n], for [n] one of the three names without an index, and none
    when it raises. *)
Lemma safe_click_buttons_body_plain (n : string) (s : St) :
  n ∈ ["broken_links"; "forms_detected"; "button_clicks"] →
  match safe_click_buttons_body env s with
  | (inr _, s') =>
      count_name n (st_page s') ≤ count_name n (st_page s) + 1
  | (inl _, s') => count_name n (st_page s') = count_name n (st_page s)
  end.
Proof.
  intros Hn.
  destruct (safe_click_buttons_body_run env s)
    as (found & rounds & tail & res & summary & Hrun & _ & _ & Hres).
  rewrite Hrun. destruct res as [e|[]];
    rewrite count_name_grow, filter_app, length_app,
      (rounds_tests_no_plain n 0 rounds Hn).
  - destruct Hres as [(He & _) | [_ ->]]; [discriminate|]. simpl. lia.
  - destruct Hres as [(_ & _ & ->) | [(e & b & He & _) _]]; [|discriminate].
    destruct (rounds_clicked 0 rounds =? 0); simpl; [|lia].
    destruct (decide (name summary_test = n)) as [Heq | Hne].
    + rewrite filter_cons_True by done. simpl. lia.
    + rewrite filter_cons_False by done. simpl. lia.
Qed.

Lemma safe_click_buttons_plain (n : string) (s : St) :
  n ∈ ["broken_links"; "forms_detected"; "button_clicks"] →
  count_name n (st_page (safe_click_buttons env handled s).2)
  ≤ count_name n (st_page s) + 1.
Proof.
  intros Hn. unfold safe_click_buttons, retry_on_stale.
  apply (retry_loop_measure handled (safe_click_buttons_body env)
           (λ s, count_name n (st_page s))).
  - intros s1. rewrite count_name_grow. simpl. lia.
  - intros s1. by apply safe_click_buttons_body_plain.
Qed.

Lemma safe_click_buttons_other (n : string) (s : St) :
  n ∈ ["broken_links"; "forms_detected"] →
  count_name n (st_page (safe_click_buttons env handled s).2)
  = count_name n (st_page s).
Proof.
  intros Hn. unfold safe_click_buttons, retry_on_stale.
  apply (retry_loop_measure_0 handled (safe_click_buttons_body env)
           (λ s, count_name n (st_page s))).
  - intros s1. rewrite count_name_grow. simpl. lia.
  - intros s1.
    destruct (safe_click_buttons_body_run env s1)
      as (found & rounds & tail & res & summary & Hrun & _ & _ & Hres).
    rewrite Hrun. cbn [snd].
    rewrite count_name_grow, filter_app, length_app.
    rewrite (rounds_tests_no_plain n 0 rounds).
    2:{ rewrite !elem_of_cons in *. tauto. }
    assert (filter (λ t, name t = n) summary = []) as ->; [|simpl; lia].
    destruct Hres as [(_ & _ & ->) | [_ ->]]; [|done].
    destruct (rounds_clicked 0 rounds =? 0); [|done].
    apply filter_name_none. constructor; [|done]. simpl.
    rewrite !elem_of_cons, elem_of_nil in Hn.
    destruct Hn as [-> | [-> | []]]; discriminate.
Qed.

End PageChecks.

(** C6, as the code has it.  Each of the names [broken_links],
    [forms_detected] and [button_clicks] is given to at most one of the
    records that the checks of a page append.  In one run of the body of
    [safe_click_buttons] in which no click and no way back fails, the names
    of the records appended are pairwise distinct: the records of the
    clicks are numbered 0, 1, 2 in order. *)
Theorem page_result_names (env : Env) (handled : option exn)
    (self : SiteTester) (page base : string) (s : St) :
  (∀ n, n ∈ ["broken_links"; "forms_detected"; "button_clicks"] →
     count_name n
       (st_page (run_page_checks env handled self page base s).2)
     ≤ count_name n (st_page s) + 1)
  ∧ ∃ evs recs,
      (safe_click_buttons_body env s).2 = grow s evs recs
      ∧ (count is_click_failed evs = 0 → count is_back_failed evs = 0 →
         NoDup (name <$> recs)
         ∧ ∃ k, k ≤ 3
             ∧ (name <$> recs = click_name <$> seq 0 k
                ∨ recs = [summary_test])).
Proof.
  split.
  - intros n Hn.
    set (s1 := (check_internal_links env handled self page base s).2).
    destruct (fill_and_submit_forms_run env handled s1)
      as (found & rec2 & Hforms & Hn2).
    set (s2 := grow s1 [EvFind "form" found] [rec2]).
    assert ((run_page_checks env handled self page base s).2
            = (safe_click_buttons env handled s2).2) as ->.
    { unfold run_page_checks, bind, try_except. fold s2 in Hforms.
      destruct (check_internal_links env handled self page base s)
        as [[e|[]] s1'] eqn:Hlinks; subst s1; cbn [snd] in *;
        unfold ret; rewrite Hforms;
        by destruct (safe_click_buttons env handled s2) as [[e'|a] s3]. }
    assert (count_name n (st_page s2)
            = count_name n (st_page s1)
              + (if decide (n = "forms_detected") then 1 else 0)) as Hs2.
    { unfold s2. by rewrite count_name_grow, (count_name_one _ _ _ Hn2). }
    pose proof (check_internal_links_plain env handled self page base s)
      as Hlinks. fold s1 in Hlinks.
    pose proof (check_internal_links_other env handled n self page base s)
      as Hother. fold s1 in Hother.
    pose proof (safe_click_buttons_plain env handled n s2 Hn) as Hle.
    rewrite !elem_of_cons, elem_of_nil in Hn.
    destruct Hn as [-> | [-> | [-> | []]]].
    + rewrite (safe_click_buttons_other env handled "broken_links" s2), Hs2.
      * simpl. lia.
      * left.
    + rewrite (safe_click_buttons_other env handled "forms_detected" s2),
        Hs2.
      * rewrite Hother by done. simpl. lia.
      * right. left.
    + rewrite Hs2, Hother in Hle by done. simpl in Hle. lia.
  - destruct (safe_click_buttons_body_run env s)
      as (found & rounds & tail & res & summary & Hrun & Hok & Hbelow
          & Hres).
    rewrite Hrun. eexists _, _. split; [reflexivity|].
    rewrite !count_cons, !count_app. cbn [is_click_failed is_back_failed].
    intros Hc Hb.
    assert (Forall (λ x, ∀ e, r_outcome x ≠ ClickFailed e) rounds) as Hnc.
    { apply (rounds_no_click_failure env rounds Hok). lia. }
    assert (Forall (λ x, ∀ e, r_outcome x ≠ BackFailed e) rounds) as Hnb.
    { apply (rounds_no_failure env rounds Hok). lia. }
    pose proof (rounds_tests_names 0 rounds Hnc Hnb) as Hnames.
    rewrite Nat.sub_0_r in Hnames.
    pose proof (rounds_clicked_cap 0 rounds (Nat.le_0_l 3) Hbelow) as Hcap.
    assert (NoDup (click_name <$> seq 0 (rounds_clicked 0 rounds))) as Hnd.
    { assert (Inj (=) (=) click_name) as Hinj
        by (intros a b; apply click_name_inj).
      apply (NoDup_fmap_2 click_name), NoDup_seq. }
    assert (summary = [] ∨ summary = [summary_test]
                           ∧ rounds_clicked 0 rounds = 0) as Hsum.
    { destruct Hres as [(_ & _ & ->) | [_ ->]]; [|by left].
      destruct (rounds_clicked 0 rounds =? 0) eqn:Hz; [|by left].
      right. split; [done | by apply Nat.eqb_eq]. }
    split.
    + rewrite fmap_app, Hnames.
      destruct Hsum as [-> | [-> Hz]].
      * by rewrite app_nil_r.
      * rewrite Hz. simpl. apply NoDup_singleton.
    + exists (rounds_clicked 0 rounds). split; [done|].
      destruct Hsum as [-> | [-> Hz]].
      * left. by rewrite app_nil_r.
      * right. rewrite Hz in Hnames. apply fmap_nil_inv in Hnames.
        by rewrite Hnames.
Qed.

Lemma page_result_names_witness :
  count_name "broken_links"
    (st_page (run_page_checks five_buttons_env None sample_self "<html>"
                "http://example.com" (start "http://example.com")).2)
  ≤ count_name "broken_links" (st_page (start "http://example.com")) + 1
  ∧ NoDup (name <$> tests
             (st_page (safe_click_buttons_body five_buttons_env
                         (start "http://example.com")).2)).
Proof.
  destruct (page_result_names five_buttons_env None sample_self "<html>"
              "http://example.com" (start "http://example.com"))
    as (Hplain & evs & recs & Hrun & Hdistinct).
  split.
  - apply Hplain. left.
  - rewrite Hrun. vm_compute in Hrun. injection Hrun as Hrecs Hevs.
    subst evs. apply (Hdistinct eq_refl eq_refl).
Defined.

(** C6 as it is stated fails.  The second button of the page is stale
    during the first attempt of [safe_click_buttons]; the second attempt
    starts again from the first button, and the page ends with two records
    named [button_click_0]. *)
Lemma run_page_checks_repeats_click_name :
  let names :=
    name <$> tests
      (st_page (run_page_checks stale_once_env None sample_self "<html>"
                  "http://example.com" (start "http://example.com")).2) in
  names = ["broken_links"; "forms_detected"; "button_click_0";
           "button_click_0"; "button_click_1"]
  ∧ ¬ NoDup names.
Proof.
  assert (name <$> tests
      (st_page (run_page_checks stale_once_env None sample_self "<html>"
                  "http://example.com" (start "http://example.com")).2)
    = ["broken_links"; "forms_detected"; "button_click_0";
       "button_click_0"; "button_click_1"]) as Hnames
    by (vm_compute; reflexivity).
  cbv zeta. rewrite Hnames. split; [done|]. intros Hnd.
  apply NoDup_cons in Hnd as [_ Hnd]. apply NoDup_cons in Hnd as [_ Hnd].
  apply NoDup_cons in Hnd as [Hnotin _]. apply Hnotin. left.
Qed.

(** A click that raises leaves a failed record under the index of the
    click that follows. *)
Example safe_click_buttons_intercepted :
  tests (st_page (safe_click_buttons_body intercepted_env
                    (start "http://example.com")).2)
  = [mkTest "button_click_0" false
       (could_not_click_message "Go" (OtherException "click intercepted"));
     mkTest "button_click_0" true (clicked_message "Next")].
Proof. vm_compute. reflexivity. Qed.

(** * Further properties of the code *)

(** ** [normalise] *)

Lemma length_app_string (a b : string) :
  String.length (a +:+ b) = String.length a + String.length b.
Proof. induction a as [|c a IH]; str_simpl; [done | by rewrite IH]. Qed.

(** X1. [normalise] leaves a string as it is exactly when the string
    starts with [http]; otherwise it puts [http://] in front.  The result
    starts with [http] in both cases. *)
Theorem normalise_fixed_points (u : string) :
  (normalise u = u ↔ Str.startswith u "http" = true)
  ∧ (Str.startswith u "http" = false → normalise u = "http://" +:+ u)
  ∧ Str.startswith (normalise u) "http" = true.
Proof.
  unfold normalise. destruct (Str.startswith u "http") eqn:Hu.
  - by rewrite Hu.
  - repeat split; try done. intros H.
    apply (f_equal String.length) in H.
    rewrite length_app_string in H. simpl in H. lia.
Qed.

Lemma normalise_fixed_points_witness :
  normalise "example.com" = "http://" +:+ "example.com".
Proof.
  exact (proj1 (proj2 (normalise_fixed_points "example.com")) eq_refl).
Defined.

(** ** [is_safe_text] *)

Lemma string_app_assoc (a b c : string) :
  (a +:+ b) +:+ c = a +:+ b +:+ c.
Proof. induction a as [|x a IH]; str_simpl; [done | by rewrite IH]. Qed.

(** X2. [is_safe_text] answers [False] exactly for the texts in which an
    entry of the blacklist occurs, the case of letters ignored. *)
Theorem is_safe_text_refuses_blacklisted (text : string) :
  is_safe_text text = false ↔ blacklisted text.
Proof. apply is_safe_text_false. Qed.

Lemma is_safe_text_refuses_blacklisted_witness : blacklisted "Sign-Out / LOGOUT".
Proof.
  exact (proj1 (is_safe_text_refuses_blacklisted "Sign-Out / LOGOUT") eq_refl).
Defined.

(** X3. A text that is not safe stays unsafe inside any longer text: what
    is put before it and after it cannot make it safe. *)
Theorem is_safe_text_unsafe_inside (pre text post : string) :
  is_safe_text text = false →
  is_safe_text (pre +:+ text +:+ post) = false.
Proof.
  rewrite !is_safe_text_false.
  intros (p & Hp & a & mid & b & -> & Hmid).
  exists p. split; [done|].
  exists (pre +:+ a), mid, (b +:+ post).
  split; [by rewrite !string_app_assoc | done].
Qed.

Lemma is_safe_text_unsafe_inside_witness :
  is_safe_text ("Re" +:+ "pay" +:+ " the loan") = false.
Proof. exact (is_safe_text_unsafe_inside "Re" "pay" " the loan" eq_refl). Defined.

(** X4. The answer of [is_safe_text] depends on the text only up to the
    case of its letters. *)
Theorem is_safe_text_ignores_case (a b : string) :
  Str.lower a = Str.lower b → is_safe_text a = is_safe_text b.
Proof.
  intros H. unfold is_safe_text.
  destruct a as [|x a], b as [|y b]; try discriminate; [done|].
  rewrite !bool_decide_eq_false_2 by done. by rewrite H.
Qed.

Lemma is_safe_text_ignores_case_witness :
  is_safe_text "DELETE account" = is_safe_text "Delete Account".
Proof.
  exact (is_safe_text_ignores_case "DELETE account" "Delete Account" eq_refl).
Defined.

(** ** [PageResult] *)

Lemma passed_or_failed (l : list Test) :
  length (filter (λ t, passed t = true) l)
  + length (filter (λ t, passed t = false) l) = length l.
Proof.
  induction l as [|t l IH]; [done|].
  destruct (passed t) eqn:Hp.
  - rewrite filter_cons_True, filter_cons_False by (by rewrite ?Hp).
    simpl. lia.
  - rewrite filter_cons_False, filter_cons_True by (by rewrite ?Hp).
    simpl. lia.
Qed.

(** X5. Every test of a page is counted once, by [passed_count] or by
    [failed_count]; [add] keeps the tests there are and the URL of the
    page, and raises the count of its flag by one and the other count not
    at all. *)
Theorem PageResult_counts (pr : PageResult) (n : string) (p : bool)
    (m : string) :
  passed_count pr + failed_count pr = length (tests pr)
  ∧ passed_count (PageResult_add pr n p m)
    = passed_count pr + (if p then 1 else 0)
  ∧ failed_count (PageResult_add pr n p m)
    = failed_count pr + (if p then 0 else 1)
  ∧ tests (PageResult_add pr n p m) = tests pr ++ [mkTest n p m]
  ∧ url (PageResult_add pr n p m) = url pr.
Proof.
  unfold passed_count, failed_count, PageResult_add. simpl.
  split; [apply passed_or_failed|].
  rewrite !filter_app, !length_app.
  destruct p.
  - rewrite filter_cons_True, filter_cons_False by done. by simpl.
  - rewrite filter_cons_False, filter_cons_True by done. by simpl.
Qed.

(** ** [retry_on_stale], once more *)

Lemma retry_loop_reaches {A} (func : M A) (n : nat) (s : St) :
  match retry_loop None n func s with
  | (inr a, s') => ∃ s0, func s0 = (inr a, s')
  | (inl e, s') =>
      (∀ m, e ≠ StaleElementReferenceException m)
      ∧ ((∃ s0, func s0 = (inl e, s'))
         ∨ e = RuntimeError "No active exception to reraise")
  end.
Proof.
  revert s. induction n as [|n IH]; intros s; simpl.
  - split; [done | by right].
  - destruct (func s) as [[e|a] s1] eqn:Hf.
    + destruct e as [m|m|m].
      * unfold bind. rewrite sleep_run. apply IH.
      * split; [done | left; by exists s].
      * split; [done | left; by exists s].
    + by exists s.
Qed.

(** X6. Called outside any handler, the wrapper of [retry_on_stale] hands
    to its caller only what the body produced: a value the body returned,
    or an exception the body raised that is not staleness; the one
    exception of its own is the [RuntimeError] of the bare [raise].  No
    staleness exception reaches the caller. *)
Theorem retry_on_stale_reaches {A} (func : M A) (s : St) :
  match retry_on_stale None func s with
  | (inr a, s') => ∃ s0, func s0 = (inr a, s')
  | (inl e, s') =>
      (∀ m, e ≠ StaleElementReferenceException m)
      ∧ ((∃ s0, func s0 = (inl e, s'))
         ∨ e = RuntimeError "No active exception to reraise")
  end.
Proof. apply retry_loop_reaches. Qed.

(** X7. A call of [safe_click_buttons] looks the buttons up at least once
    and at most three times: the body is run no more than three times,
    whatever the page does. *)
Theorem safe_click_buttons_attempts (env : Env) (handled : option exn)
    (s : St) :
  count is_find_button (st_log s) + 1
  ≤ count is_find_button (st_log (safe_click_buttons env handled s).2)
  ∧ count is_find_button (st_log (safe_click_buttons env handled s).2)
    ≤ count is_find_button (st_log s) + 3.
Proof.
  unfold safe_click_buttons, retry_on_stale.
  refine (retry_loop_attempts handled (safe_click_buttons_body env)
            (λ s, count is_find_button (st_log s)) _ _ 3 s).
  - intros s1. rewrite grow_log, count_app, count_cons, count_nil.
    cbn [is_find_button]. lia.
  - intros s1.
    destruct (safe_click_buttons_body_run env s1)
      as (found & rounds & tail & res & summary & Hrun & Hok & _ & Hres).
    rewrite Hrun. cbn [snd]. rewrite grow_log, count_app, count_cons,
      count_app, (rounds_no_find env rounds Hok).
    assert (count is_find_button tail = 0) as ->.
    { destruct Hres as [(_ & -> & _) | [(e & b & _ & Htail) _]]; [done|].
      apply (count_reads is_find_button b); [by intros [] | done]. }
    change (is_find_button (EvFind "button" found)) with true.
    cbv iota. lia.
Qed.

(** ** [fill_and_submit_forms] *)

(** X8. [fill_and_submit_forms] returns at its first attempt and appends
    one record, named [forms_detected], which passes.  Its message gives
    the number of forms found, and says that there are none both when
    there are none and when the lookup raised. *)
Theorem fill_and_submit_forms_outcome (env : Env) (handled : option exn)
    (s : St) :
  fill_and_submit_forms env handled s
  = (inr tt,
     grow s [EvFind "form" (env_find_elements env (st_log s) "form")]
       [mkTest "forms_detected" true
          match env_find_elements env (st_log s) "form" with
          | inr (f :: forms) => pretty (length (f :: forms)) +:+ " form(s)"
          | _ => "No forms on page"
          end]).
Proof.
  unfold fill_and_submit_forms. apply retry_on_stale_first_attempt.
  unfold fill_and_submit_forms_body, find_elements_or_empty, try_except,
    bind.
  rewrite call_run.
  destruct (env_find_elements env (st_log s) "form") as [e|[|f forms]];
    unfold ret; by rewrite add_run, grow_grow.
Qed.

(** ** [safe_click_buttons] on a page without buttons *)

(** X9. When the lookup of the buttons finds none, or raises, the check
    clicks nothing and appends the summary record, at its first attempt. *)
Theorem safe_click_buttons_no_buttons (env : Env) (handled : option exn)
    (s : St) :
  env_find_elements env (st_log s) "button" = inr []
  ∨ (∃ e, env_find_elements env (st_log s) "button" = inl e) →
  safe_click_buttons env handled s
  = (inr tt,
     grow s [EvFind "button" (env_find_elements env (st_log s) "button")]
       [summary_test]).
Proof.
  intros H. unfold safe_click_buttons. apply retry_on_stale_first_attempt.
  unfold safe_click_buttons_body, find_elements_or_empty, try_except, bind.
  rewrite call_run.
  destruct H as [-> | [e ->]]; unfold ret; simpl;
    by rewrite add_run, grow_grow.
Qed.

Lemma safe_click_buttons_no_buttons_witness :
  safe_click_buttons quiet_env None (start "http://example.com")
  = (inr tt,
     grow (start "http://example.com") [EvFind "button" (inr [])]
       [summary_test]).
Proof.
  exact (safe_click_buttons_no_buttons quiet_env None
           (start "http://example.com") (or_introl eq_refl)).
Defined.

(** ** [discover_links], the other way round *)

(** A turn of the loop returns when the anchor is excluded by its prefix,
    and otherwise when [urljoin] returns. *)
Lemma anchor_link_returns (env : Env) (self : SiteTester)
    (base href : string) :
  (∃ o, anchor_link env self base href = inr o)
  ↔ (Str.startswith (Str.strip href) "mailto:" = false →
     Str.startswith (Str.strip href) "tel:" = false →
     ∃ absolute, env_urljoin env base (Str.strip href) = inr absolute).
Proof.
  unfold anchor_link.
  destruct (Str.startswith (Str.strip href) "mailto:").
  { split; [discriminate | by eexists]. }
  destruct (Str.startswith (Str.strip href) "tel:").
  { split; [discriminate | by eexists]. }
  cbn [orb].
  destruct (env_urljoin env base (Str.strip href)) as [e|absolute].
  - split.
    + by intros [o Ho].
    + intros H. by destruct (H eq_refl eq_refl).
  - split; [by eexists|]. intros _.
    destruct (Str.startswith absolute "javascript:"
              || negb (same_domain env self (Str.split_head "#" absolute)));
      by eexists.
Qed.

Lemma discover_links_loop_returns (env : Env) (self : SiteTester)
    (base : string) (hrefs : list string) (acc : gset string) :
  (∀ href, href ∈ hrefs → ∃ o, anchor_link env self base href = inr o) →
  ∃ links, discover_links_loop env self base acc hrefs = inr links.
Proof.
  intros Hall.
  destruct (discover_links_loop env self base acc hrefs) as [e|links] eqn:Hl;
    [|by eexists].
  apply discover_links_loop_inl in Hl as (href & Hin & Hraise).
  destruct (Hall href Hin) as [o Ho]. congruence.
Qed.

(** X10. [discover_links] returns exactly when the parser returns the
    anchors of the page and [urljoin] returns on each anchor whose stripped
    [href] starts with neither [mailto:] nor [tel:].  In the set it then
    returns, an anchor contributes its link whenever nothing excludes it:
    its stripped [href] has neither prefix, it does not resolve to a
    [javascript:] URL, and the resolved URL without its fragment passes
    [same_domain].  A page without anchors has no links. *)
Theorem discover_links_complete (env : Env) (self : SiteTester)
    (page base : string) :
  ((∃ links, discover_links env self page base = inr links)
   ↔ ∃ hrefs,
       env_anchor_hrefs env page = inr hrefs
       ∧ ∀ href, href ∈ hrefs →
           Str.startswith (Str.strip href) "mailto:" = false →
           Str.startswith (Str.strip href) "tel:" = false →
           ∃ absolute, env_urljoin env base (Str.strip href) = inr absolute)
  ∧ (∀ links hrefs href absolute,
       discover_links env self page base = inr links →
       env_anchor_hrefs env page = inr hrefs →
       href ∈ hrefs →
       Str.startswith (Str.strip href) "mailto:" = false →
       Str.startswith (Str.strip href) "tel:" = false →
       env_urljoin env base (Str.strip href) = inr absolute →
       Str.startswith absolute "javascript:" = false →
       same_domain env self (Str.split_head "#" absolute) = true →
       Str.split_head "#" absolute ∈ links)
  ∧ (env_anchor_hrefs env page = inr [] →
     discover_links env self page base = inr ∅).
Proof.
  split; [|split].
  - split.
    + intros [links Hd].
      destruct (elem_of_discover_links env self page base links Hd)
        as (hrefs & Hh & Hall & _).
      exists hrefs. split; [done|]. intros href Hin.
      apply (proj1 (anchor_link_returns env self base href)).
      by apply Hall.
    + intros (hrefs & Hh & Hall). unfold discover_links. rewrite Hh.
      apply discover_links_loop_returns. intros href Hin.
      apply (proj2 (anchor_link_returns env self base href)).
      by apply Hall.
  - intros links hrefs href absolute Hd Hh Hin Hm Ht Hu Hj Hs.
    destruct (elem_of_discover_links env self page base links Hd)
      as (hrefs' & Hh' & _ & Hmem).
    assert (hrefs' = hrefs) as Heq by congruence. subst hrefs'.
    apply Hmem. exists href. split; [done|]. unfold anchor_link.
    by rewrite Hm, Ht, Hu, Hj, Hs.
  - intros H. unfold discover_links. by rewrite H.
Qed.

Lemma discover_links_complete_witness :
  "http://example.com/a" ∈ ({[ "http://example.com/a" ]} : gset string).
Proof.
  apply (proj1 (proj2 (discover_links_complete five_anchors_env sample_self
                         "<html>" "http://example.com"))
           {[ "http://example.com/a" ]}
           ["http://example.com/a#top"; "mailto:someone@example.com";
            "http://other.org/"; " http://example.com/a "; "tel:5550100"]
           " http://example.com/a " "http://example.com/a");
    [exact five_anchors_links | reflexivity
    | right; right; right; left | reflexivity..].
Defined.

(** ** [check_internal_links] and the links it probes *)

Lemma discover_links_member (env : Env) (self : SiteTester)
    (page base x : string) (links : gset string) :
  discover_links env self page base = inr links →
  x ∈ links →
  same_domain env self x = true ∧ Str.has_char "#" x = false.
Proof.
  intros Hd Hx.
  destruct (elem_of_discover_links env self page base links Hd)
    as (hrefs & _ & _ & Hmem).
  destruct (proj1 (Hmem x) Hx) as (href & _ & Hl).
  apply anchor_link_kept in Hl as (_ & _ & absolute & _ & _ & Hs & ->).
  split; [done | apply split_head_no_sep].
Qed.

Lemma check_internal_links_probes (env : Env) (handled : option exn)
    (self : SiteTester) (page base : string) (s : St)
    (links : gset string) :
  discover_links env self page base = inr links →
  ∃ evs record,
    check_internal_links env handled self page base s
    = (inr tt, grow s evs [record])
    ∧ Forall2 (λ ev link, ∃ r, ev = EvHead link 8 r) evs
        (take 20 (env_iter env links))
    ∧ (evs = [] → record = mkTest "broken_links" true
                             "No broken links found (checked up to 20)").
Proof.
  intros Hd.
  destruct (links_loop_run env (env_iter env links) 0 [] s)
    as (evs & Hrun & Hall).
  rewrite Nat.sub_0_r in Hall.
  assert (∃ record, check_internal_links_body env self page base s
                    = (inr tt, grow s evs [record])
                    ∧ (evs = [] →
                       record = mkTest "broken_links" true
                                  "No broken links found (checked up to 20)"))
    as (record & Hb & Hn).
  { unfold check_internal_links_body, bind, of_result. rewrite Hd, Hrun.
    cbn [app].
    destruct (concat (map broken_of evs)) as [|x l] eqn:Hc;
      rewrite add_run, grow_grow, app_nil_r; eexists;
      (split; [reflexivity|]); [done|].
    intros ->. discriminate Hc. }
  exists evs, record. split; [|done].
  by apply retry_on_stale_first_attempt.
Qed.

(** A body that raises [e] in every state and leaves the state as it is:
    the wrapper raises with nothing but its own pauses in between, and [e]
    itself at once when [e] is not staleness. *)
Lemma retry_loop_raising {A} (handled : option exn) (func : M A) (e : exn) :
  (∀ s, func s = (inl e, s)) →
  ∀ n s, ∃ e' sleeps,
    retry_loop handled n func s = (inl e', grow s sleeps [])
    ∧ Forall (λ ev, ev = EvSleep 1) sleeps
    ∧ ((∀ m, e ≠ StaleElementReferenceException m) → 0 < n →
       e' = e ∧ sleeps = []).
Proof.
  intros Hfunc n. induction n as [|n IH]; intros s.
  - simpl. unfold bare_raise.
    destruct handled as [h|]; eexists _, []; rewrite grow_nil;
      (split; [reflexivity|]); (split; [constructor | lia]).
  - simpl. rewrite Hfunc. destruct e as [m| |].
    + unfold bind. rewrite sleep_run.
      destruct (IH (grow s [EvSleep 1] [])) as (e' & sleeps & -> & Hs & _).
      exists e', (EvSleep 1 :: sleeps). rewrite grow_grow.
      split; [reflexivity|]. split; [by constructor|].
      intros He. by destruct (He m).
    + eexists _, []. rewrite grow_nil. split; [reflexivity|].
      split; [constructor | done].
    + eexists _, []. rewrite grow_nil. split; [reflexivity|].
      split; [constructor | done].
Qed.

(** X11. When the discovery of the links returns, every request
    [check_internal_links] sends is a HEAD request with a timeout of 8 for
    one of the links discovered, which passes [same_domain] and has no [#]
    in it; and when no link is found on the page it sends none and appends
    the passing record.  When the discovery raises, no request is sent and
    no record is appended: the check raises, after nothing but the pauses
    of the retry wrapper, and at once with the exception of the discovery
    when that is not staleness. *)
Theorem check_internal_links_requests (env : Env) (handled : option exn)
    (self : SiteTester) (page base : string) (s : St) :
  iter_ok env →
  (∀ links, discover_links env self page base = inr links →
     ∃ evs record,
       check_internal_links env handled self page base s
       = (inr tt, grow s evs [record])
       ∧ (∀ ev, ev ∈ evs →
          ∃ link r, ev = EvHead link 8 r
                    ∧ link ∈ links
                    ∧ same_domain env self link = true
                    ∧ Str.has_char "#" link = false)
       ∧ (links = ∅ →
          evs = []
          ∧ record = mkTest "broken_links" true
                       "No broken links found (checked up to 20)"))
  ∧ (∀ e, discover_links env self page base = inl e →
       ∃ e' sleeps,
         check_internal_links env handled self page base s
         = (inl e', grow s sleeps [])
         ∧ Forall (λ ev, ev = EvSleep 1) sleeps
         ∧ ((∀ m, e ≠ StaleElementReferenceException m) →
            e' = e ∧ sleeps = [])).
Proof.
  intros Hiter. split.
  - intros links Hd.
    destruct (check_internal_links_probes env handled self page base s
                links Hd)
      as (evs & record & Hrun & Hall & Hnone).
    exists evs, record. split; [done|]. split.
    + intros ev Hin.
      apply list_elem_of_lookup in Hin as [i Hi].
      destruct (Forall2_lookup_l _ _ _ _ _ Hall Hi) as (link & Hl & r & ->).
      exists link, r. split; [done|].
      apply list_elem_of_lookup_2 in Hl. apply subseteq_take in Hl.
      rewrite (Hiter _) in Hl. apply elem_of_elements in Hl.
      split; [done|].
      by apply (discover_links_member env self page base link links).
    + intros ->.
      assert (env_iter env ∅ = []) as Hnil.
      { apply Permutation_nil_r. rewrite (Hiter ∅).
        by rewrite elements_empty. }
      rewrite Hnil, take_nil in Hall. apply Forall2_nil_inv_r in Hall.
      split; [done | by apply Hnone].
  - intros e Hd.
    destruct (retry_loop_raising handled
                (check_internal_links_body env self page base) e
                (λ s', check_internal_links_body_raises env self page base
                         s' e Hd) 3 s)
      as (e' & sleeps & Hrun & Hs & Hsame).
    exists e', sleeps. split; [exact Hrun|]. split; [done|].
    intros He. apply Hsame; [done | lia].
Qed.

Lemma check_internal_links_requests_witness :
  ∃ evs record,
    check_internal_links missing_page_env None sample_self "<html>"
      "http://example.com" (start "http://example.com")
    = (inr tt, grow (start "http://example.com") evs [record])
    ∧ (∀ ev, ev ∈ evs →
       ∃ link r, ev = EvHead link 8 r
                 ∧ link ∈ ({[ "http://example.com/a" ]} : gset string)
                 ∧ same_domain missing_page_env sample_self link = true
                 ∧ Str.has_char "#" link = false).
Proof.
  destruct (proj1 (check_internal_links_requests missing_page_env None
                     sample_self "<html>" "http://example.com"
                     (start "http://example.com")
                     (iter_ok_elements missing_page_env eq_refl))
              {[ "http://example.com/a" ]} five_anchors_links)
    as (evs & record & Hrun & Hreq & _).
  exists evs, record. exact (conj Hrun Hreq).
Defined.

Lemma grow_tests_eq (s : St) (evs : list Event) (recs : list Test) :
  tests (st_page (grow s evs recs)) = tests (st_page s) ++ recs.
Proof. reflexivity. Qed.

(** ** The order of the clicks *)

Lemma omap_click_reads (b : Element) (reads : list Event) :
  Forall (is_read_of b) reads → omap click_elem reads = [].
Proof.
  induction 1 as [|ev reads Hev _ IH]; [done|].
  destruct ev; try done; exact IH.
Qed.

Lemma omap_click_rounds (env : Env) (rounds : list Round) :
  Forall (round_ok env) rounds →
  omap click_elem (rounds_events rounds) `sublist_of` map r_elem rounds.
Proof.
  induction 1 as [|x rounds (_ & Hreads & _) _ IH]; simpl; [done|].
  unfold round_events. rewrite !omap_app, (omap_click_reads _ _ Hreads).
  cbn [app]. destruct (r_outcome x); simpl.
  - by apply sublist_cons.
  - by apply sublist_skip.
  - by apply sublist_skip.
  - by apply sublist_skip.
Qed.

(** X12. The loop of [safe_click_buttons] clicks the buttons in the order
    of the list it was given, each entry of the list at most once: the
    elements clicked, in the order of the clicks, form a sublist of the
    buttons. *)
Theorem click_loop_clicks_in_order (env : Env) (buttons : list Element)
    (clicked : nat) (s : St) :
  ∃ evs recs res,
    click_loop env buttons clicked s = (res, grow s evs recs)
    ∧ omap click_elem evs `sublist_of` buttons.
Proof.
  destruct (click_loop_rounds env buttons clicked s)
    as (rounds & tail & res & Hrun & Hok & _ & [k Hpre] & Hres).
  eexists _, _, res. split; [exact Hrun|].
  rewrite omap_app.
  assert (omap click_elem tail = []) as ->.
  { destruct Hres as [[_ ->] | (e & b & _ & Htail)]; [done|].
    by eapply omap_click_reads. }
  rewrite app_nil_r, Hpre. apply sublist_inserts_r.
  by apply (omap_click_rounds env).
Qed.

(** ** The records and the clicks *)

Lemma rounds_tests_counts (env : Env) (clicked : nat)
    (rounds : list Round) :
  Forall (round_ok env) rounds →
  length (filter (λ t, passed t = false) (rounds_tests clicked rounds))
  = count is_click_failed (rounds_events rounds)
    + count is_back_failed (rounds_events rounds)
  ∧ length (filter (λ t, passed t = true) (rounds_tests clicked rounds))
    = count is_click_ok (rounds_events rounds).
Proof.
  intros H. revert clicked.
  induction H as [|x rounds Hx _ IH]; intros clicked; simpl; [done|].
  rewrite !filter_app, !length_app, !count_app.
  destruct (round_counts env x Hx) as (-> & -> & ->).
  destruct (IH (outcome_clicked clicked (r_outcome x))) as [-> ->].
  destruct (r_outcome x); simpl; split; lia.
Qed.

(** X13. Over a whole call of [safe_click_buttons], retries included, the
    page only grows, and the failures are accounted for one by one: the
    failed records appended are as many as the clicks that raised plus
    the ways back that raised, and every click that returned left a
    passing record. *)
Theorem safe_click_buttons_accounting (env : Env) (handled : option exn)
    (s : St) :
  ∃ evs recs,
    (safe_click_buttons env handled s).2 = grow s evs recs
    ∧ failed_count (st_page (safe_click_buttons env handled s).2)
      = failed_count (st_page s)
        + count is_click_failed evs + count is_back_failed evs
    ∧ passed_count (st_page s) + count is_click_ok evs
      ≤ passed_count (st_page (safe_click_buttons env handled s).2).
Proof.
  unfold safe_click_buttons, retry_on_stale.
  apply (retry_loop_respects handled (safe_click_buttons_body env)
           (λ s1 s2, ∃ evs recs, s2 = grow s1 evs recs
              ∧ failed_count (st_page s2)
                = failed_count (st_page s1)
                  + count is_click_failed evs + count is_back_failed evs
              ∧ passed_count (st_page s1) + count is_click_ok evs
                ≤ passed_count (st_page s2))).
  - intros s1. exists [], []. rewrite grow_nil. rewrite !count_nil.
    split; [done|]. lia.
  - intros s1 s2 s3 (e1 & r1 & -> & Hf1 & Hp1) (e2 & r2 & -> & Hf2 & Hp2).
    exists (e1 ++ e2), (r1 ++ r2). rewrite grow_grow in *.
    rewrite !count_app. split; [done|]. lia.
  - intros s1.
    destruct (safe_click_buttons_body_run env s1)
      as (found & rounds & tail & res & summary & Hrun & Hok & _ & Hres).
    rewrite Hrun. cbn [snd]. eexists _, _. split; [reflexivity|].
    unfold failed_count, passed_count. rewrite !grow_tests_eq.
    rewrite !filter_app, !length_app, !count_cons, !count_app.
    destruct (rounds_tests_counts env 0 rounds Hok) as [-> ->].
    assert (count is_click_failed tail = 0 ∧ count is_back_failed tail = 0
            ∧ count is_click_ok tail = 0) as (-> & -> & ->).
    { destruct Hres as [(_ & -> & _) | [(e & b & _ & Htail) _]]; [done|].
      repeat split; eapply count_reads;
        eauto using read_not_click_ok, read_not_click_failed,
          read_not_back_failed. }
    assert (filter (λ t, passed t = false) summary = []) as ->.
    { destruct Hres as [(_ & _ & ->) | [_ ->]]; [|done].
      by destruct (rounds_clicked 0 rounds =? 0). }
    cbn [is_click_failed is_back_failed is_click_ok length]. lia.
  - intros s1. exists [EvSleep 1], []. split; [done|].
    unfold failed_count, passed_count. rewrite !grow_tests_eq, !app_nil_r.
    rewrite !count_cons, !count_nil. cbn [is_click_failed is_back_failed
      is_click_ok]. lia.
Qed.

(** ** The session and its own base URL *)

(** X14. The base URL of a session that [__init__] has built passes the
    [same_domain] of that session, and it is the one URL waiting to be
    visited. *)
Theorem SiteTester_init_same_domain (env : Env) (raw : string)
    (self : SiteTester) :
  SiteTester_init env raw = inr self →
  same_domain env self (base_url self) = true
  ∧ to_visit self = [base_url self]
  ∧ base_url self = normalise raw.
Proof.
  unfold SiteTester_init.
  destruct (env_urlparse env (normalise raw)) as [e|[sch netloc]] eqn:Hp;
    [discriminate|].
  destruct (env_chrome env); [discriminate|].
  intros [= <-]. unfold same_domain. simpl. rewrite Hp.
  rewrite (bool_decide_eq_true_2 (netloc = netloc)) by done.
  by rewrite orb_true_r.
Qed.

Lemma SiteTester_init_same_domain_witness :
  ∃ self, SiteTester_init quiet_env "example.com" = inr self
          ∧ same_domain quiet_env self (base_url self) = true.
Proof.
  destruct (SiteTester_init quiet_env "example.com") as [e|self] eqn:H.
  - discriminate H.
  - exists self. split; [reflexivity|].
    exact (proj1 (SiteTester_init_same_domain quiet_env "example.com"
                    self H)).
Defined.

(** ** [grab_console_errors] *)

Section ConsoleFacts.
Context {pystr : Type} `{EqDecision pystr}.
Variable upper : pystr → pystr.
Variable str_lit : string → pystr.

Lemma console_errors_None (logs : list (gmap string pystr)) :
  console_errors upper str_lit logs = None
  ↔ ∃ l, l ∈ logs ∧ l !! "level" = None.
Proof.
  induction logs as [|l logs IH]; simpl.
  - split; [done | intros (l & Hin & _); by apply elem_of_nil in Hin].
  - destruct (l !! "level") as [level|] eqn:Hl.
    + destruct (console_errors upper str_lit logs) as [errors|].
      * split; [done|]. intros (l' & Hin & Hn).
        apply elem_of_cons in Hin as [-> | Hin]; [congruence|].
        discriminate (proj2 IH (ex_intro _ l' (conj Hin Hn))).
      * split; [|done]. intros _.
        destruct (proj1 IH eq_refl) as (l' & Hin & Hn).
        exists l'. split; [by right | done].
    + split; [|done]. intros _. exists l. split; [left | done].
Qed.

Lemma console_errors_Some (logs errors : list (gmap string pystr)) :
  console_errors upper str_lit logs = Some errors →
  errors `sublist_of` logs
  ∧ ∀ l, l ∈ errors
         ↔ l ∈ logs ∧ ∃ level, l !! "level" = Some level
                               ∧ is_error_level upper str_lit level = true.
Proof.
  revert errors. induction logs as [|l logs IH]; intros errors; simpl.
  - intros [= <-]. split; [done|]. intros l. split.
    + intros H. by apply elem_of_nil in H.
    + intros [H _]. by apply elem_of_nil in H.
  - destruct (l !! "level") as [level|] eqn:Hl; [|discriminate].
    destruct (console_errors upper str_lit logs) as [errors'|];
      [|discriminate].
    destruct (IH errors' eq_refl) as [Hsub Hmem].
    destruct (is_error_level upper str_lit level) eqn:He; intros [= <-].
    + split; [by apply sublist_skip|]. intros l'.
      rewrite !elem_of_cons, Hmem. split.
      * intros [-> | [Hin Hlev]]; [|by split; [right|]].
        split; [by left | by exists level].
      * intros [[-> | Hin] Hlev]; [by left | by right].
    + split; [by apply sublist_cons|]. intros l'.
      rewrite elem_of_cons, Hmem. split.
      * intros [Hin Hlev]. by split; [right|].
      * intros [[-> | Hin] Hlev]; [|done].
        destruct Hlev as (level' & Hl' & He'). congruence.
Qed.

End ConsoleFacts.

(** X15. [grab_console_errors] answers the empty list when the log cannot
    be had, and when an entry of the log has no [level].  Otherwise it
    answers, in the order of the log, exactly the entries whose level in
    upper case is [SEVERE] or [ERROR]. *)
Theorem grab_console_errors_outcome {pystr : Type} `{EqDecision pystr}
    (upper : pystr → pystr) (str_lit : string → pystr)
    (logs : list (gmap string pystr)) :
  (∀ e, grab_console_errors upper str_lit (inl e) = [])
  ∧ grab_console_errors upper str_lit (inr logs) `sublist_of` logs
  ∧ ((∃ l, l ∈ logs ∧ l !! "level" = None) →
     grab_console_errors upper str_lit (inr logs) = [])
  ∧ ((∀ l, l ∈ logs → is_Some (l !! "level")) →
     ∀ l, l ∈ grab_console_errors upper str_lit (inr logs)
          ↔ l ∈ logs
            ∧ ∃ level, l !! "level" = Some level
                       ∧ (upper level = str_lit "SEVERE"
                          ∨ upper level = str_lit "ERROR")).
Proof.
  assert (∀ level, is_error_level upper str_lit level = true
                   ↔ upper level = str_lit "SEVERE"
                     ∨ upper level = str_lit "ERROR") as Hlevel.
  { intros level. unfold is_error_level.
    by rewrite orb_true_iff, !bool_decide_eq_true. }
  split; [done|]. unfold grab_console_errors.
  destruct (console_errors upper str_lit logs) as [errors|] eqn:Hc.
  - destruct (console_errors_Some upper str_lit logs errors Hc)
      as [Hsub Hmem].
    split; [done|]. split.
    + intros H. apply (console_errors_None upper str_lit) in H.
      congruence.
    + intros _ l. rewrite Hmem. split.
      * intros (Hin & level & Hl & He). split; [done|].
        exists level. split; [done | by apply Hlevel].
      * intros (Hin & level & Hl & He). split; [done|].
        exists level. split; [done | by apply Hlevel].
  - split; [apply sublist_nil_l|]. split; [done|].
    intros Hall.
    apply (console_errors_None upper str_lit) in Hc as (l & Hin & Hn).
    destruct (Hall l Hin) as [level Hl]. congruence.
Qed.

Lemma sample_console_levels (l : gmap string string) :
  l ∈ sample_console → is_Some (l !! "level").
Proof.
  unfold sample_console. rewrite !elem_of_cons, elem_of_nil.
  intros [-> | [-> | [-> | []]]]; by eexists.
Qed.

Lemma grab_console_errors_outcome_witness :
  ({[ "level" := "error"; "message" := "x is not defined" ]}
     : gmap string string)
  ∈ grab_console_errors ascii_upper id (inr sample_console).
Proof.
  apply (proj2 (proj2 (proj2 (grab_console_errors_outcome ascii_upper id
                                sample_console)))
           sample_console_levels).
  split; [left|]. exists "error". split; [reflexivity | by right].
Defined.

(** The three entries of the sample: the error in small letters is kept
    with the severe one, the warning is dropped. *)
Example grab_console_errors_sample :
  (λ l, l !! "message")
  <$> grab_console_errors ascii_upper id (inr sample_console)
  = [Some "x is not defined"; Some "404 (Not Found)"].
Proof. vm_compute. reflexivity. Qed.

(** ** A page whose buttons are all blacklisted *)

(** What [derived_text] calls: the text of the button, and after it at
    most the label. *)
Lemma derived_text_reads (env : Env) (b : Element) (s : St) :
  ∃ res r rest,
    derived_text env b s = (res, grow s (EvText b r :: rest) [])
    ∧ Forall (is_read_of b) rest
    ∧ length rest ≤ 1.
Proof.
  unfold derived_text, bind. rewrite call_run.
  destruct (env_text env (st_log s) b) as [e|t] eqn:Ht.
  - eexists _, _, []. split; [reflexivity|]. by split; [constructor|simpl; lia].
  - case_bool_decide as Hempty.
    + rewrite call_run.
      destruct (env_get_attribute env _ b "aria-label") as [e|[label|]];
        rewrite ?grow_grow; eexists _, _, [_]; (split; [reflexivity|]);
        (split; [by repeat constructor | simpl; lia]).
    + eexists _, _, []. split; [reflexivity|].
      by split; [constructor|simpl; lia].
Qed.

Section AllBlacklisted.
Variable env : Env.
Hypothesis all_blacklisted :
  ∀ b s, ∃ t, (derived_text env b s).1 = inr t ∧ blacklisted t.

Lemma click_loop_all_skipped (buttons : list Element) (clicked : nat)
    (s : St) :
  clicked < 3 →
  ∃ reads,
    click_loop env buttons clicked s = (inr clicked, grow s (concat reads) [])
    ∧ Forall2 (λ b rs, ∃ r rest, rs = EvText b r :: rest
                                 ∧ Forall (is_read_of b) rest
                                 ∧ length rest ≤ 1) buttons reads.
Proof.
  intros Hlt. revert s.
  induction buttons as [|b rest IH]; intros s; cbn [click_loop].
  - exists []. by rewrite grow_nil.
  - destruct (3 <=? clicked) eqn:Hcap; [apply Nat.leb_le in Hcap; lia|].
    unfold bind at 1.
    destruct (derived_text_reads env b s)
      as (res & r & more & Hdt & Hreads & Hlen).
    destruct (all_blacklisted b s) as (t & Ht & Hb).
    rewrite Hdt in *. simpl in Ht. subst res.
    apply is_safe_text_false in Hb. rewrite Hb. cbn [negb].
    destruct (IH (grow s (EvText b r :: more) [])) as (reads & Hrun & Hall).
    exists ((EvText b r :: more) :: reads).
    rewrite Hrun, grow_grow. split; [done|].
    constructor; [by exists r, more | done].
Qed.

End AllBlacklisted.

(** X17. On a page where the text of every button is blacklisted, whenever
    it is read, [safe_click_buttons] returns at its first attempt: it looks
    the buttons up once, reads the text of each button found, in the order
    of the list (the text, and after it at most the label), calls nothing
    else, so clicks nothing, and appends the summary record alone. *)
Theorem safe_click_buttons_all_blacklisted (env : Env)
    (handled : option exn) (s : St) :
  (∀ b s', ∃ t, (derived_text env b s').1 = inr t ∧ blacklisted t) →
  let found := env_find_elements env (st_log s) "button" in
  let buttons := match found with inr l => l | inl _ => [] end in
  ∃ reads,
    safe_click_buttons env handled s
    = (inr tt,
       grow s (EvFind "button" found :: concat reads) [summary_test])
    ∧ safe_click_buttons_body env s = safe_click_buttons env handled s
    ∧ Forall2 (λ b rs, ∃ r rest, rs = EvText b r :: rest
                                 ∧ Forall (is_read_of b) rest
                                 ∧ length rest ≤ 1) buttons reads
    ∧ count is_click (EvFind "button" found :: concat reads) = 0.
Proof.
  intros Hall found buttons.
  assert (find_elements_or_empty env "button" s
          = (inr buttons, grow s [EvFind "button" found] [])) as Hfind.
  { unfold find_elements_or_empty, try_except. rewrite call_run.
    fold found. unfold buttons. by destruct found. }
  destruct (click_loop_all_skipped env Hall buttons 0
              (grow s [EvFind "button" found] [])) as (reads & Hrun & Hreads);
    [lia|].
  assert (safe_click_buttons_body env s
          = (inr tt,
             grow s (EvFind "button" found :: concat reads) [summary_test]))
    as Hbody.
  { unfold safe_click_buttons_body, bind. rewrite Hfind, Hrun.
    cbn [Nat.eqb]. rewrite add_run, !grow_grow, ?app_nil_r. reflexivity. }
  assert (safe_click_buttons env handled s
          = (inr tt,
             grow s (EvFind "button" found :: concat reads) [summary_test]))
    as Hcall by (by apply retry_on_stale_first_attempt).
  exists reads. split; [done|]. split; [congruence|]. split; [done|].
  rewrite count_cons. cbn [is_click].
  clear Hrun Hbody Hcall Hfind.
  induction Hreads as [|b rs bs rss (r & rest & -> & Hrest & _) _ IH];
    [done|].
  cbn [concat]. rewrite count_app, count_cons. cbn [is_click].
  rewrite (count_reads is_click b rest); [done | by intros [] | done].
Qed.

Lemma shop_env_blacklisted (b : Element) (s : St) :
  ∃ t, (derived_text shop_env b s).1 = inr t ∧ blacklisted t.
Proof.
  unfold derived_text, bind. rewrite call_run. simpl.
  destruct (b =? 0); eexists; (split; [reflexivity|]);
    by apply is_safe_text_false.
Qed.

Lemma safe_click_buttons_all_blacklisted_witness :
  ∃ reads,
    safe_click_buttons shop_env None (start "http://example.com")
    = (inr tt,
       grow (start "http://example.com")
         (EvFind "button" (inr [0; 1]) :: concat reads) [summary_test])
    ∧ length reads = 2.
Proof.
  destruct (safe_click_buttons_all_blacklisted shop_env None
              (start "http://example.com") shop_env_blacklisted)
    as (reads & Hrun & _ & Hreads & _).
  exists reads. split; [exact Hrun|].
  symmetry. exact (Forall2_length _ _ _ Hreads).
Defined.
